(** * CoinDB schema (deps/CoinDB/src/Schema.hxx): keychains, accounts,
      signing scripts and transactions.

    A shallow embedding of the in-memory logic of the schema classes.  The
    classes are records, the member functions are functions on them; a member
    function that mutates its object returns the new object, one that can
    throw returns a [result].  The collaborators the header only includes
    (hdkeys.h, hash.h, CoinQ_script.h, CoinNodeData.h, stringutils.h) are
    interfaces: type classes whose fields are the functions the schema calls. *)

From Stdlib Require Import ZArith List String Ascii Bool Lia.
From Stdlib.Strings Require Import Byte.
From Stdlib Require Import Permutation Sorted.
Import ListNotations.

Local Open Scope string_scope.
Local Open Scope list_scope.
Local Open Scope Z_scope.

Set Warnings "-register-all".

(** ** Basic types *)

(** [bytes_t] and [secure_bytes_t] are both vectors of unsigned char; the
    secure one only differs in its allocator. *)
Definition bytes_t := list byte.
Definition secure_bytes_t := list byte.

(** [v.empty()] *)
Definition empty {A : Type} (v : list A) : bool :=
  match v with [] => true | _ :: _ => false end.

(** uint32_t arithmetic wraps modulo 2^32. *)
Definition wrap32 (z : Z) : Z := z mod 2 ^ 32.

(** ** Exceptions

    Every failure in the header is [throw std::runtime_error(msg)]. *)
Inductive result (A : Type) : Type :=
| Ok (a : A)
| Throw (what : string).
Arguments Ok {A} a.
Arguments Throw {A} what.

Definition bind {A B : Type} (r : result A) (f : A -> result B) : result B :=
  match r with
  | Ok a => f a
  | Throw m => Throw m
  end.

Notation "x <- c1 ;; c2" := (bind c1 (fun x => c2))
  (at level 61, c1 at next level, right associativity).

Definition rmap {A B : Type} (f : A -> B) (r : result A) : result B :=
  x <- r ;; Ok (f x).

Definition is_ok {A : Type} (r : result A) : bool :=
  match r with Ok _ => true | Throw _ => false end.

(** [mapM f l]: run [f] on the elements of [l] from left to right, stopping at
    the first exception. *)
Fixpoint mapM {A B : Type} (f : A -> result B) (l : list A) : result (list B) :=
  match l with
  | [] => Ok []
  | x :: l' => y <- f x ;; ys <- mapM f l' ;; Ok (y :: ys)
  end.

(** [name.empty() || name[0] == '@'] *)
Definition invalid_name (name : string) : bool :=
  match name with
  | EmptyString => true
  | String c _ => Ascii.eqb c "@"%char
  end.

(** ** Collaborators *)

(** hash.h: the hash functions, pure functions on byte vectors. *)
Class Hash : Type := {
  sha256 : bytes_t -> bytes_t;
  ripemd160 : bytes_t -> bytes_t;
  sha256_2 : bytes_t -> bytes_t
}.

(** hdkeys.h.  [HDKeychain] is the library's keychain object; the schema only
    builds one, asks for a child and reads its fields.  [hd_master entropy]
    stands for
    [HDSeed hdSeed(entropy); HDKeychain(hdSeed.getMasterKey(), hdSeed.getMasterChainCode())]
    and [hd_make key chain_code child_num parent_fp depth] for the five-argument
    constructor (the key is a private or a public key).  Derivation is taken
    as total. *)
Class HDKeys : Type := {
  HDKeychain : Type;
  hd_master : secure_bytes_t -> HDKeychain;
  hd_make : bytes_t -> secure_bytes_t -> Z -> Z -> Z -> HDKeychain;
  hd_getChild : HDKeychain -> Z -> HDKeychain;
  hd_depth : HDKeychain -> Z;
  hd_parent_fp : HDKeychain -> Z;
  hd_child_num : HDKeychain -> Z;
  hd_chain_code : HDKeychain -> secure_bytes_t;
  hd_key : HDKeychain -> secure_bytes_t;
  hd_privkey : HDKeychain -> secure_bytes_t;
  hd_pubkey : HDKeychain -> bytes_t;
  hd_extkey : HDKeychain -> secure_bytes_t;
  hd_getPrivateSigningKey : HDKeychain -> Z -> secure_bytes_t;
  hd_getPublicSigningKey : HDKeychain -> Z -> bytes_t
}.

(** Modelled from the spec: [Coin::HDKeychain::hash()] is declared in hdkeys.h,
    which is not part of the sources at hand.  The spec (data model, Keychain)
    and the comment above [Keychain::hash()] give the identity hash as
    ripemd160(sha256(pubkey + chain_code)). *)
Definition hd_hash `{Hash} `{HDKeys} (h : HDKeychain) : bytes_t :=
  ripemd160 (sha256 (hd_pubkey h ++ hd_chain_code h)).

(** ** Keychain *)

Module Keychain.

(** The object's fields.  [id_] and the [children_] back references are
    assigned and filled by the persistence layer only and are left out: no
    member function of the header reads or writes them.  [parent_] is the
    shared pointer to the parent, [None] for a null pointer. *)
Inductive t : Type := mk {
  name_ : string;
  depth_ : Z;
  parent_fp_ : Z;
  child_num_ : Z;
  pubkey_ : bytes_t;
  chain_code_ : secure_bytes_t;
  chain_code_ciphertext_ : bytes_t;
  chain_code_salt_ : bytes_t;
  privkey_ : secure_bytes_t;
  privkey_ciphertext_ : bytes_t;
  privkey_salt_ : bytes_t;
  parent_ : option t;
  derivation_path_ : list Z;
  hash_ : bytes_t
}.

(** The private default constructor [Keychain() { }]: strings and vectors
    empty, null parent; the integer fields are set by the caller. *)
Definition default : t :=
  mk "" 0 0 0 [] [] [] [] [] [] [] None [] [].

Definition isPrivate (k : t) : bool :=
  negb (empty (privkey_ k)) || negb (empty (privkey_ciphertext_ k)).

Fixpoint root (k : t) : t :=
  match k with
  | mk _ _ _ _ _ _ _ _ _ _ _ (Some p) _ _ => root p
  | mk _ _ _ _ _ _ _ _ _ _ _ None _ _ => k
  end.

Definition setPrivateKeyLockKey (k : t) (lock_key : secure_bytes_t)
    (salt : bytes_t) : result t :=
  if negb (isPrivate k) then
    Throw "Cannot lock the private key of a public keychain."
  else if empty (privkey_ k) then Throw "Key is locked."
  else
    Ok (mk (name_ k) (depth_ k) (parent_fp_ k) (child_num_ k)
          (pubkey_ k) (chain_code_ k) (chain_code_ciphertext_ k)
          (chain_code_salt_ k) (privkey_ k) (privkey_ k) salt (parent_ k)
          (derivation_path_ k) (hash_ k)).

Definition setChainCodeLockKey (k : t) (lock_key : secure_bytes_t)
    (salt : bytes_t) : result t :=
  if empty (chain_code_ k) then Throw "Chain code is locked."
  else
    Ok (mk (name_ k) (depth_ k) (parent_fp_ k) (child_num_ k)
          (pubkey_ k) (chain_code_ k) (chain_code_ k) salt (privkey_ k)
          (privkey_ciphertext_ k) (privkey_salt_ k) (parent_ k)
          (derivation_path_ k) (hash_ k)).

(** [Keychain(name, entropy, lock_key, salt)]: a new root keychain. *)
Definition new `{Hash} `{HDKeys} (name : string) (entropy lock_key : secure_bytes_t)
    (salt : bytes_t) : result t :=
  if invalid_name name then Throw "Invalid keychain name."
  else
    let hdKeychain := hd_master entropy in
    let k := mk name (hd_depth hdKeychain) (hd_parent_fp hdKeychain)
               (hd_child_num hdKeychain) (hd_pubkey hdKeychain)
               (hd_chain_code hdKeychain) [] [] (hd_key hdKeychain) [] []
               None [] (hd_hash hdKeychain) in
    k1 <- setPrivateKeyLockKey k lock_key salt ;;
    setChainCodeLockKey k1 lock_key salt.

(** [operator=]: every field but [name_] is copied, then the hash is
    recomputed from the copied public key and chain code. *)
Definition assign `{Hash} (this source : t) : t :=
  let hashdata := pubkey_ source ++ chain_code_ source in
  mk (name_ this) (depth_ source) (parent_fp_ source)
    (child_num_ source) (pubkey_ source) (chain_code_ source)
    (chain_code_ciphertext_ source) (chain_code_salt_ source)
    (privkey_ source) (privkey_ciphertext_ source) (privkey_salt_ source)
    (parent_ source) (derivation_path_ source)
    (ripemd160 (sha256 hashdata)).

(** [child(i, get_private)] *)
Definition child `{Hash} `{HDKeys} (k : t) (i : Z) (get_private : bool)
    : result t :=
  if get_private && negb (isPrivate k) then
    Throw "Cannot get private child from public keychain."
  else if empty (chain_code_ k) then Throw "Chain code is locked."
  else if get_private then
    if empty (privkey_ k) then Throw "Private key is locked."
    else
      let hdkeychain :=
        hd_getChild (hd_make (privkey_ k) (chain_code_ k) (child_num_ k)
                       (parent_fp_ k) (depth_ k)) i in
      Ok (mk "" (hd_depth hdkeychain) (hd_parent_fp hdkeychain)
            (hd_child_num hdkeychain) (hd_pubkey hdkeychain)
            (hd_chain_code hdkeychain) [] [] (hd_privkey hdkeychain) [] []
            (Some k) (derivation_path_ k ++ [i]) (hd_hash hdkeychain))
  else
    let hdkeychain :=
      hd_getChild (hd_make (pubkey_ k) (chain_code_ k) (child_num_ k)
                     (parent_fp_ k) (depth_ k)) i in
    Ok (mk "" (hd_depth hdkeychain) (hd_parent_fp hdkeychain)
          (hd_child_num hdkeychain) (hd_pubkey hdkeychain)
          (hd_chain_code hdkeychain) [] [] [] [] []
          (Some k) (derivation_path_ k ++ [i]) (hd_hash hdkeychain)).

Definition lockPrivateKey (k : t) : t :=
  mk (name_ k) (depth_ k) (parent_fp_ k) (child_num_ k) (pubkey_ k)
    (chain_code_ k) (chain_code_ciphertext_ k) (chain_code_salt_ k)
    [] (privkey_ciphertext_ k) (privkey_salt_ k) (parent_ k)
    (derivation_path_ k) (hash_ k).

Definition lockChainCode (k : t) : t :=
  mk (name_ k) (depth_ k) (parent_fp_ k) (child_num_ k) (pubkey_ k)
    [] (chain_code_ciphertext_ k) (chain_code_salt_ k)
    (privkey_ k) (privkey_ciphertext_ k) (privkey_salt_ k) (parent_ k)
    (derivation_path_ k) (hash_ k).

Definition lockAll (k : t) : t :=
  lockChainCode (lockPrivateKey k).

Definition isPrivateKeyLocked (k : t) : result bool :=
  if negb (isPrivate k) then Throw "Keychain is not private."
  else Ok (empty (privkey_ k)).

Definition isChainCodeLocked (k : t) : bool := empty (chain_code_ k).

Definition unlockPrivateKey (k : t) (lock_key : secure_bytes_t)
    : result t :=
  if negb (isPrivate k) then
    Throw "Cannot unlock the private key of a public keychain."
  else if negb (empty (privkey_ k)) then Ok k
  else
    Ok (mk (name_ k) (depth_ k) (parent_fp_ k) (child_num_ k)
          (pubkey_ k) (chain_code_ k) (chain_code_ciphertext_ k)
          (chain_code_salt_ k) (privkey_ciphertext_ k) (privkey_ciphertext_ k)
          (privkey_salt_ k) (parent_ k) (derivation_path_ k) (hash_ k)).

Definition unlockChainCode (k : t) (lock_key : secure_bytes_t)
    : t :=
  if negb (empty (chain_code_ k)) then k
  else
    mk (name_ k) (depth_ k) (parent_fp_ k) (child_num_ k)
      (pubkey_ k) (chain_code_ciphertext_ k) (chain_code_ciphertext_ k)
      (chain_code_salt_ k) (privkey_ k) (privkey_ciphertext_ k)
      (privkey_salt_ k) (parent_ k) (derivation_path_ k) (hash_ k).

(** The accessors [privkey()] and [chain_code()]. *)
Definition privkey (k : t) : result secure_bytes_t :=
  if negb (isPrivate k) then Throw "Keychain is public."
  else if empty (privkey_ k) then Throw "Keychain private key is locked."
  else Ok (privkey_ k).

Definition chain_code (k : t) : result secure_bytes_t :=
  if empty (chain_code_ k) then Throw "Keychain chain code is locked."
  else Ok (chain_code_ k).

(** [for (auto k: derivation_path) hdkeychain = hdkeychain.getChild(k);] *)
Definition hd_walk `{HDKeys} (h : HDKeychain) (derivation_path : list Z)
    : HDKeychain :=
  fold_left hd_getChild derivation_path h.

Definition getSigningPrivateKey `{HDKeys} (k : t) (i : Z)
    (derivation_path : list Z) : result secure_bytes_t :=
  if negb (isPrivate k) then
    Throw "Cannot get a private signing key from public keychain."
  else if empty (privkey_ k) then Throw "Private key is locked."
  else if empty (chain_code_ k) then Throw "Chain code is locked."
  else
    let hdkeychain := hd_make (privkey_ k) (chain_code_ k) (child_num_ k)
                        (parent_fp_ k) (depth_ k) in
    Ok (hd_getPrivateSigningKey (hd_walk hdkeychain derivation_path) i).

Definition getSigningPublicKey `{HDKeys} (k : t) (i : Z)
    (derivation_path : list Z) : result bytes_t :=
  if empty (chain_code_ k) then Throw "Chain code is locked."
  else
    let hdkeychain := hd_make (pubkey_ k) (chain_code_ k) (child_num_ k)
                        (parent_fp_ k) (depth_ k) in
    Ok (hd_getPublicSigningKey (hd_walk hdkeychain derivation_path) i).

Definition extkey `{HDKeys} (k : t) (get_private : bool)
    : result secure_bytes_t :=
  if get_private && negb (isPrivate k) then
    Throw "Cannot get private extkey of a public keychain."
  else if get_private && empty (privkey_ k) then
    Throw "Keychain private key is locked."
  else if empty (chain_code_ k) then Throw "Keychain chain code is locked."
  else
    let key := if get_private then privkey_ k else pubkey_ k in
    Ok (hd_extkey (hd_make key (chain_code_ k) (child_num_ k) (parent_fp_ k)
                     (depth_ k))).

End Keychain.

(** [std::set<std::shared_ptr<Keychain>>]: a set of pointers, ordered by
    address.  Two distinct pointers may point to equal keychains, and the
    enumeration order is unrelated to the order of insertion; it is modelled
    as the list of the pointees in enumeration order, [insert] putting the new
    element last.  Properties of code that enumerates such a set are stated
    for every permutation of the list. *)
Definition KeychainSet := list Keychain.t.


(** ** Key *)

(** Lexicographic [operator<] on vectors of unsigned char. *)
Fixpoint bytes_ltb (a b : bytes_t) : bool :=
  match a, b with
  | _, [] => false
  | [], _ :: _ => true
  | x :: a', y :: b' =>
      if (Byte.to_N x <? Byte.to_N y)%N then true
      else if (Byte.to_N y <? Byte.to_N x)%N then false
      else bytes_ltb a' b'
  end.

(** Comparing two objects by a byte vector read from each. *)
Definition by_key {A : Type} (key : A -> bytes_t) (x y : A) : bool :=
  bytes_ltb (key x) (key y).

Module Key.

(** [root_keychain_] is the shared pointer to the root keychain; the record
    holds the root as it is when the key is built. *)
Record t : Type := mk {
  root_keychain_ : Keychain.t;
  derivation_path_ : list Z;
  index_ : Z;
  pubkey_ : bytes_t;
  is_private_ : bool
}.

(** [Key(keychain, index)] *)
Definition new `{HDKeys} (keychain : Keychain.t) (index : Z) : result t :=
  let root_keychain := Keychain.root keychain in
  pubkey <- Keychain.getSigningPublicKey keychain index [] ;;
  Ok (mk root_keychain (Keychain.derivation_path_ keychain) index pubkey
        (Keychain.isPrivate root_keychain)).

(** The comparison handed to [std::sort] in the signing script constructor:
    [key1->pubkey() < key2->pubkey()]. *)
Definition ltb (key1 key2 : t) : bool := by_key pubkey_ key1 key2.

End Key.

Definition KeyVector := list Key.t.

(** [std::sort(first, last, comp)].  The standard fixes the result up to the
    order of equivalent elements only; insertion from the right is one such
    sort.  What is proved of the sorted keys below uses only that the result
    is an ordered rearrangement of the input. *)
Section Sort.
Context {A : Type} (comp : A -> A -> bool).

Fixpoint sort_insert (x : A) (l : list A) : list A :=
  match l with
  | [] => [x]
  | y :: l' => if comp y x then y :: sort_insert x l' else x :: l
  end.

Definition std_sort (l : list A) : list A := fold_right sort_insert [] l.
End Sort.

(** ** Account and AccountBin *)

Module Account.

(** [bins_] holds weak pointers to the account's bins; a bin is identified by
    its index, which never changes. *)
Record t : Type := mk {
  name_ : string;
  minsigs_ : Z;
  keychains_ : KeychainSet;
  unused_pool_size_ : Z;
  time_created_ : Z;
  bins_ : list Z
}.

(** [Account(name, minsigs, keychains, unused_pool_size, time_created)].  The
    members are initialised first, then the three checks run in this order. *)
Definition new (name : string) (minsigs : Z) (keychains : KeychainSet)
    (unused_pool_size time_created : Z) : result t :=
  if invalid_name name then Throw "Invalid account name."
  else if 15 <? Z.of_nat (List.length keychains) then
    Throw "Account can use at most 15 keychains."
  else if Z.of_nat (List.length keychains) <? minsigs then
    Throw "Account minimum signatures cannot exceed number of keychains."
  else Ok (mk name minsigs keychains unused_pool_size time_created []).

Definition bin_count (a : t) : Z := wrap32 (Z.of_nat (List.length (bins_ a))).

End Account.

Module AccountBin.

Definition CHANGE : Z := 1.
Definition DEFAULT : Z := 2.

(** [account_] is the shared pointer to the owning account; [keychains_] is
    the transient cache filled by [loadKeychains]. *)
Record t : Type := mk {
  account_ : Account.t;
  index_ : Z;
  name_ : string;
  script_count_ : Z;
  keychains_ : KeychainSet
}.

(** [AccountBin(account, index, name)] *)
Definition new (account : Account.t) (index : Z) (name : string) : t :=
  mk account index name 0 [].

Definition set_keychains (bin : t) (keychains : KeychainSet) : t :=
  mk (account_ bin) (index_ bin) (name_ bin) (script_count_ bin) keychains.

(** The loop of [loadKeychains]: each child is inserted as soon as it is
    derived, so a keychain whose chain code is locked stops the loop with the
    children derived so far left in the cache. *)
Fixpoint load_loop `{Hash} `{HDKeys} (pending : list Keychain.t) (index : Z)
    (loaded : KeychainSet) : KeychainSet * result unit :=
  match pending with
  | [] => (loaded, Ok tt)
  | keychain :: rest =>
      match Keychain.child keychain index false with
      | Ok child => load_loop rest index (loaded ++ [child])
      | Throw what => (loaded, Throw what)
      end
  end.

(** [loadKeychains()]: the bin after the call and what the call returns. *)
Definition loadKeychains `{Hash} `{HDKeys} (bin : t) : t * result bool :=
  if negb (empty (keychains_ bin)) then (bin, Ok false)
  else
    let (loaded, r) :=
      load_loop (Account.keychains_ (account_ bin)) (index_ bin)
        (keychains_ bin) in
    (set_keychains bin loaded, _ <- r ;; Ok true).

End AccountBin.

(** [Account::addBin(name)]: the account with the new bin registered, and the
    bin, which points to that account. *)
Definition addBin (a : Account.t) (name : string)
    : result (Account.t * AccountBin.t) :=
  if invalid_name name then Throw "Invalid account bin name."
  else
    let index := wrap32 (Z.of_nat (List.length (Account.bins_ a)) + 1) in
    let a' := Account.mk (Account.name_ a) (Account.minsigs_ a)
                (Account.keychains_ a) (Account.unused_pool_size_ a)
                (Account.time_created_ a) (Account.bins_ a ++ [index]) in
    Ok (a', AccountBin.new a' index name).

(** ** SigningScript *)

(** CoinQ_script.h.  [Script_multisig minsigs pubkeys] stands for
    [Script(PAY_TO_MULTISIG_SCRIPT_HASH, minsigs, pubkeys)], which may reject
    its arguments; [Script_parse] for the constructor from the bytes of an
    input script, taken as total. *)
Class ScriptLib : Type := {
  Script : Type;
  Script_multisig : Z -> list bytes_t -> result Script;
  Script_parse : bytes_t -> Script;
  txinscript_EDIT : Script -> bytes_t;
  txoutscript : Script -> bytes_t;
  sigsneeded : Script -> N;
  missingsigs : Script -> list bytes_t
}.

Module SigningScript.

Inductive status_t : Type :=
| UNUSED | CHANGE | PENDING | RECEIVED | CANCELED | ALL.

Definition status_value (s : status_t) : Z :=
  match s with
  | UNUSED => 1
  | CHANGE => 2
  | PENDING => 4
  | RECEIVED => 8
  | CANCELED => 16
  | ALL => 31
  end.

Definition status_name (s : status_t) : string :=
  match s with
  | UNUSED => "UNUSED"
  | CHANGE => "CHANGE"
  | PENDING => "PENDING"
  | RECEIVED => "RECEIVED"
  | CANCELED => "CANCELED"
  | ALL => "ALL"
  end.

(** The condition [status & FLAG] on an int. *)
Definition has_flag (status : Z) (flag : status_t) : bool :=
  negb (Z.land status (status_value flag) =? 0).

(** [getStatusString(status)].  [delimited_list] is
    [stdutils::delimited_list] of stringutils.h. *)
Definition getStatusString (delimited_list : list string -> string -> string)
    (status : Z) : string :=
  let flags := [] in
  let flags := if has_flag status UNUSED then flags ++ ["UNUSED"] else flags in
  let flags := if has_flag status CHANGE then flags ++ ["CHANGE"] else flags in
  let flags := if has_flag status PENDING then flags ++ ["PENDING"] else flags in
  let flags := if has_flag status RECEIVED then flags ++ ["RECEIVED"] else flags in
  let flags := if has_flag status CANCELED then flags ++ ["CANCELED"] else flags in
  if empty flags then "UNKNOWN" else delimited_list flags " | ".

(** [getStatusFlags(status)] *)
Definition getStatusFlags (status : Z) : list status_t :=
  let flags := [] in
  let flags := if has_flag status UNUSED then flags ++ [UNUSED] else flags in
  let flags := if has_flag status CHANGE then flags ++ [CHANGE] else flags in
  let flags := if has_flag status PENDING then flags ++ [PENDING] else flags in
  let flags := if has_flag status RECEIVED then flags ++ [RECEIVED] else flags in
  let flags := if has_flag status CANCELED then flags ++ [CANCELED] else flags in
  flags.

(** [account_bin_] is the shared pointer to the bin; the record holds the bin
    as the constructor leaves it. *)
Record t : Type := mk {
  account_ : Account.t;
  account_bin_ : AccountBin.t;
  index_ : Z;
  label_ : string;
  status_ : status_t;
  txinscript_ : bytes_t;
  txoutscript_ : bytes_t;
  keys_ : KeyVector
}.

(** The body of the constructor after the bin's keychains are loaded: one key
    per keychain, the keys sorted by public key, the scripts built from the
    sorted public keys. *)
Definition build `{HDKeys} `{ScriptLib} (bin : AccountBin.t) (index : Z)
    (label : string) (status : status_t) : result t :=
  keys <- mapM (fun keychain => Key.new keychain index)
            (AccountBin.keychains_ bin) ;;
  let keys := std_sort Key.ltb keys in
  let pubkeys := map Key.pubkey_ keys in
  script <- Script_multisig (Account.minsigs_ (AccountBin.account_ bin))
              pubkeys ;;
  Ok (mk (AccountBin.account_ bin) bin index label status
        (txinscript_EDIT script) (txoutscript script) keys).

(** [SigningScript(account_bin, index, label, status)]: the bin after the
    call (its keychains may have been loaded) and the new script. *)
Definition new `{Hash} `{HDKeys} `{ScriptLib} (account_bin : AccountBin.t)
    (index : Z) (label : string) (status : status_t)
    : AccountBin.t * result t :=
  let (bin, loaded) := AccountBin.loadKeychains account_bin in
  (bin, _ <- loaded ;; build bin index label status).

(** The two scripts of a signing script. *)
Definition scripts (s : t) : bytes_t * bytes_t :=
  (txinscript_ s, txoutscript_ s).

End SigningScript.

(** [AccountBin::newSigningScript(label)]: [script_count_++] is evaluated
    before the constructor runs. *)
Definition newSigningScript `{Hash} `{HDKeys} `{ScriptLib}
    (bin : AccountBin.t) (label : string)
    : AccountBin.t * result SigningScript.t :=
  let index := AccountBin.script_count_ bin in
  let bin' := AccountBin.mk (AccountBin.account_ bin) (AccountBin.index_ bin)
                (AccountBin.name_ bin) (wrap32 (index + 1))
                (AccountBin.keychains_ bin) in
  SigningScript.new bin' index label SigningScript.UNUSED.

(** ** Blocks and transactions *)

(** The value classes of CoinNodeData.h the schema converts to and from. *)
Module Coin.

Record OutPoint : Type := mkOutPoint {
  outpoint_hash : bytes_t;
  outpoint_index : Z
}.

Record TxIn : Type := mkTxIn {
  previousOut : OutPoint;
  scriptSig : bytes_t;
  sequence : Z
}.

Record TxOut : Type := mkTxOut {
  value : Z;
  scriptPubKey : bytes_t
}.

Record Transaction : Type := mkTransaction {
  version : Z;
  inputs : list TxIn;
  outputs : list TxOut;
  lockTime : Z
}.

(** Modelled from the spec: [Coin::Transaction::clearScriptSigs()] is defined
    in CoinNodeData, which is not part of the sources at hand.  The spec has
    the unsigned hash computed over the transaction "with every input's
    unlocking script cleared": each input keeps its outpoint and sequence
    number and gets an empty script. *)
Definition clearScriptSigs (tx : Transaction) : Transaction :=
  mkTransaction (version tx)
    (map (fun txin => mkTxIn (previousOut txin) [] (sequence txin)) (inputs tx))
    (outputs tx) (lockTime tx).

End Coin.

(** Serialisation and hashing of [Coin::Transaction] (CoinNodeData.h). *)
Class CoinData : Type := {
  getSerialized : Coin.Transaction -> bytes_t;
  getHashLittleEndian : Coin.Transaction -> bytes_t
}.

Module BlockHeader.

Record t : Type := mk {
  hash_ : bytes_t;
  height_ : Z;
  version_ : Z;
  prevhash_ : bytes_t;
  merkleroot_ : bytes_t;
  timestamp_ : Z;
  bits_ : Z;
  nonce_ : Z
}.

End BlockHeader.

Module TxIn.

(** The back pointer [tx_] to the owning transaction is left out: the
    transaction that lists the input is its owner.  [txindex_] is unset until
    the transaction stamps it. *)
Record t : Type := mk {
  outhash_ : bytes_t;
  outindex_ : Z;
  script_ : bytes_t;
  sequence_ : Z;
  txindex_ : Z
}.

(** [TxIn(outhash, outindex, script, sequence)] *)
Definition new (outhash : bytes_t) (outindex : Z) (script : bytes_t)
    (sequence : Z) : t :=
  mk outhash outindex script sequence 0.

(** [TxIn(const Coin::TxIn&)] *)
Definition of_coin (coin_txin : Coin.TxIn) : t :=
  mk (Coin.outpoint_hash (Coin.previousOut coin_txin))
     (Coin.outpoint_index (Coin.previousOut coin_txin))
     (Coin.scriptSig coin_txin) (Coin.sequence coin_txin) 0.

(** The setters [script(script)] and [txindex(txindex)]. *)
Definition set_script (txin : t) (script : bytes_t) : t :=
  mk (outhash_ txin) (outindex_ txin) script (sequence_ txin) (txindex_ txin).

Definition set_txindex (txin : t) (txindex : Z) : t :=
  mk (outhash_ txin) (outindex_ txin) (script_ txin) (sequence_ txin)
     (wrap32 txindex).

Definition toCoinClasses (txin : t) : Coin.TxIn :=
  Coin.mkTxIn (Coin.mkOutPoint (outhash_ txin) (outindex_ txin))
    (script_ txin) (sequence_ txin).

End TxIn.

Module TxOut.

Inductive type_t : Type := NONE | CHANGE | DEBIT | CREDIT | ALL.

(** As for inputs, the back pointer [tx_] is left out; [spent_] and
    [signingscript_] are set by the code that tracks outputs. *)
Record t : Type := mk {
  value_ : Z;
  script_ : bytes_t;
  txindex_ : Z;
  spent_ : option TxIn.t;
  signingscript_ : option SigningScript.t;
  account_id_ : option Z;
  type_ : type_t
}.

(** [TxOut(value, script, account_id, type)] *)
Definition new (value : Z) (script : bytes_t) (account_id : option Z)
    (type : type_t) : t :=
  mk value script 0 None None account_id type.

(** [TxOut(const Coin::TxOut&, account_id, type)] *)
Definition of_coin (coin_txout : Coin.TxOut) (account_id : option Z)
    (type : type_t) : t :=
  mk (Coin.value coin_txout) (Coin.scriptPubKey coin_txout) 0 None None
     account_id type.

Definition set_txindex (txout : t) (txindex : Z) : t :=
  mk (value_ txout) (script_ txout) (wrap32 txindex) (spent_ txout)
     (signingscript_ txout) (account_id_ txout) (type_ txout).

Definition toCoinClasses (txout : t) : Coin.TxOut :=
  Coin.mkTxOut (value_ txout) (script_ txout).

End TxOut.

(** An entry of a vector of shared pointers: the address the pointer holds
    and the object at that address.  Two entries with the same address are
    the same object. *)
Definition shared (A : Type) : Type := (nat * A)%type.

(** A vector of pointers to objects that are all different: each object at
    an address of its own. *)
Definition distinct {A : Type} (l : list A) : list (shared A) :=
  combine (seq 0 (List.length l)) l.

(** [p->txindex(i)] for the pointer [p] to address [a], seen from a vector:
    the object at [a] is written, so every entry that points to [a] shows the
    new position. *)
Definition write {A : Type} (set_txindex : A -> Z -> A) (a : nat) (i : Z)
    (l : list (shared A)) : list (shared A) :=
  map (fun e => if Nat.eqb (fst e) a then (fst e, set_txindex (snd e) i) else e)
    l.

(** The loops of [Tx::set] that stamp each input and output with its
    position: [for (auto& p: v) p->txindex(i++);] run over the addresses
    still to come, counting from [i]. *)
Fixpoint stamp_loop {A : Type} (set_txindex : A -> Z -> A)
    (pending : list nat) (i : Z) (l : list (shared A)) : list (shared A) :=
  match pending with
  | [] => l
  | a :: rest => stamp_loop set_txindex rest (i + 1) (write set_txindex a i l)
  end.

(** The objects of a vector after the loop, in the order of the vector. *)
Definition stamp {A : Type} (set_txindex : A -> Z -> A) (l : list (shared A))
    : list A :=
  map snd (stamp_loop set_txindex (map fst l) 0 l).

(** The last position, counting from [i], at which the address [a] occurs
    in a list of addresses. *)
Fixpoint last_position (a : nat) (i : Z) (addresses : list nat) : option Z :=
  match addresses with
  | [] => None
  | b :: rest =>
      match last_position a (i + 1) rest with
      | Some j => Some j
      | None => if Nat.eqb a b then Some i else None
      end
  end.

(** The position an object carries after the loop over the vector [l]: the
    last one at which its address is listed. *)
Definition stamped_position {A : Type} (l : list (shared A)) (e : shared A)
    : Z :=
  match last_position (fst e) 0 (map fst l) with
  | Some j => j
  | None => 0
  end.

Module Tx.

Inductive status_t : Type :=
| UNSIGNED | UNSENT | SENT | RECEIVED | CONFLICTED | CANCELED | CONFIRMED | ALL.

Definition status_value (s : status_t) : Z :=
  match s with
  | UNSIGNED => 1
  | UNSENT => Z.shiftl 1 1
  | SENT => Z.shiftl 1 2
  | RECEIVED => Z.shiftl 1 3
  | CONFLICTED => Z.shiftl 1 4
  | CANCELED => Z.shiftl 1 5
  | CONFIRMED => Z.shiftl 1 6
  | ALL => Z.shiftl 1 7 - 1
  end.

(** [s1 != s2] on the enumeration compares the values. *)
Definition status_neqb (s1 s2 : status_t) : bool :=
  negb (status_value s1 =? status_value s2).

(** [txins_] and [txouts_] are vectors of weak pointers to the inputs and
    outputs, which the caller of [set] owns; the record lists the objects
    they point to, as they are while the caller keeps them. *)
Record t : Type := mk {
  hash_ : bytes_t;
  unsigned_hash_ : bytes_t;
  version_ : Z;
  txins_ : list TxIn.t;
  txouts_ : list TxOut.t;
  locktime_ : Z;
  timestamp_ : Z;
  status_ : status_t;
  have_fee_ : bool;
  fee_ : Z;
  blockheader_ : option BlockHeader.t;
  blockindex_ : option Z
}.

(** [Tx(version, locktime, timestamp, status)]; the defaults are
    [Tx(1, 0, 0xffffffff, RECEIVED)]. *)
Definition new (version locktime timestamp : Z) (status : status_t) : t :=
  mk [] [] version [] [] locktime timestamp status false 0 None None.

Definition set_hash (tx : t) (hash : bytes_t) : t :=
  mk hash (unsigned_hash_ tx) (version_ tx) (txins_ tx) (txouts_ tx)
     (locktime_ tx) (timestamp_ tx) (status_ tx) (have_fee_ tx) (fee_ tx)
     (blockheader_ tx) (blockindex_ tx).

Definition set_unsigned_hash (tx : t) (unsigned_hash : bytes_t) : t :=
  mk (hash_ tx) unsigned_hash (version_ tx) (txins_ tx) (txouts_ tx)
     (locktime_ tx) (timestamp_ tx) (status_ tx) (have_fee_ tx) (fee_ tx)
     (blockheader_ tx) (blockindex_ tx).

Definition set_status (tx : t) (status : status_t) : t :=
  mk (hash_ tx) (unsigned_hash_ tx) (version_ tx) (txins_ tx) (txouts_ tx)
     (locktime_ tx) (timestamp_ tx) status (have_fee_ tx) (fee_ tx)
     (blockheader_ tx) (blockindex_ tx).

Definition set_txins (tx : t) (txins : list TxIn.t) : t :=
  mk (hash_ tx) (unsigned_hash_ tx) (version_ tx) txins (txouts_ tx)
     (locktime_ tx) (timestamp_ tx) (status_ tx) (have_fee_ tx) (fee_ tx)
     (blockheader_ tx) (blockindex_ tx).

Definition toCoinClasses (tx : t) : Coin.Transaction :=
  Coin.mkTransaction (version_ tx) (map TxIn.toCoinClasses (txins_ tx))
    (map TxOut.toCoinClasses (txouts_ tx)) (locktime_ tx).

Definition raw `{CoinData} (tx : t) : bytes_t :=
  getSerialized (toCoinClasses tx).

(** [missingSigCount()]: the largest [sigsneeded()] over the inputs. *)
Definition missingSigCount `{ScriptLib} (tx : t) : N :=
  fold_left
    (fun count txin =>
       let script := Script_parse (TxIn.script_ txin) in
       if (count <? sigsneeded script)%N then sigsneeded script else count)
    (txins_ tx) 0%N.

(** [missingSigPubkeys()], a [std::set<bytes_t>] read as the list of inserted
    keys. *)
Definition missingSigPubkeys `{ScriptLib} (tx : t) : list bytes_t :=
  flat_map (fun txin => missingsigs (Script_parse (TxIn.script_ txin)))
    (txins_ tx).

Definition updateStatus `{ScriptLib} (tx : t) : t :=
  if (0 <? missingSigCount tx)%N then set_status tx UNSIGNED else tx.

Definition updateHash `{Hash} `{CoinData} (tx : t) : t :=
  if status_neqb (status_ tx) UNSIGNED then set_hash tx (rev (sha256_2 (raw tx)))
  else tx.

Definition updateUnsignedHash `{CoinData} (tx : t) : t :=
  let coin_tx := Coin.clearScriptSigs (toCoinClasses tx) in
  set_unsigned_hash tx (getHashLittleEndian coin_tx).

(** The three updates every [set] ends with. *)
Definition updateAll `{Hash} `{ScriptLib} `{CoinData} (tx : t) : t :=
  updateHash (updateUnsignedHash (updateStatus tx)).

(** [set(version, txins, txouts, locktime, timestamp, status)].  The two
    vectors hold shared pointers, and the positions are written through
    them. *)
Definition set_shared `{Hash} `{ScriptLib} `{CoinData} (tx : t) (version : Z)
    (txins : list (shared TxIn.t)) (txouts : list (shared TxOut.t))
    (locktime timestamp : Z) (status : status_t) : t :=
  updateAll
    (mk (hash_ tx) (unsigned_hash_ tx) version
       (stamp TxIn.set_txindex txins) (stamp TxOut.set_txindex txouts)
       locktime timestamp status (have_fee_ tx) (fee_ tx) (blockheader_ tx)
       (blockindex_ tx)).

(** [set] on vectors whose pointers point to objects that are all
    different. *)
Definition set `{Hash} `{ScriptLib} `{CoinData} (tx : t) (version : Z)
    (txins : list TxIn.t) (txouts : list TxOut.t)
    (locktime timestamp : Z) (status : status_t) : t :=
  set_shared tx version (distinct txins) (distinct txouts) locktime timestamp
    status.

(** [fromCoinClasses(coin_tx)] creates the inputs and outputs itself and
    keeps them through the weak pointers only, so they are gone when it
    returns; what [set(coin_tx, ...)] and [set(raw, ...)] read after it is
    not defined, and the three are left out. *)

(** The status setter [status(status)]. *)
Definition status (tx : t) (status : status_t) : t :=
  if status_neqb (status_ tx) status then set_status tx status else tx.

End Tx.

(** ** Sequences of operations on a transaction *)

(** The calls a client of [Tx] makes after construction. *)
Inductive TxOp : Type :=
| OpSet (version : Z) (txins : list (shared TxIn.t))
    (txouts : list (shared TxOut.t)) (locktime timestamp : Z)
    (status : Tx.status_t)
| OpStatus (status : Tx.status_t)
| OpUpdateStatus
| OpUpdateUnsignedHash
| OpUpdateHash.

(** The status a call is given, if it is given one. *)
Definition requested_status (op : TxOp) : option Tx.status_t :=
  match op with
  | OpSet _ _ _ _ _ status => Some status
  | OpStatus status => Some status
  | OpUpdateStatus | OpUpdateUnsignedHash | OpUpdateHash => None
  end.

Section TxOps.
Context `{Hash} `{ScriptLib} `{CoinData}.

(** One call. *)
Definition run_op (tx : Tx.t) (op : TxOp) : Tx.t :=
  match op with
  | OpSet version txins txouts locktime timestamp status =>
      Tx.set_shared tx version txins txouts locktime timestamp status
  | OpStatus status => Tx.status tx status
  | OpUpdateStatus => Tx.updateStatus tx
  | OpUpdateUnsignedHash => Tx.updateUnsignedHash tx
  | OpUpdateHash => Tx.updateHash tx
  end.

Definition run_ops (tx : Tx.t) (ops : list TxOp) : Tx.t :=
  fold_left run_op ops tx.
End TxOps.

(** The calls that run [updateStatus]: [set] and [updateStatus] itself. *)
Definition runs_updateStatus (op : TxOp) : bool :=
  match op with
  | OpSet _ _ _ _ _ _ | OpUpdateStatus => true
  | OpStatus _ | OpUpdateUnsignedHash | OpUpdateHash => false
  end.

(** Replacing the scripts of some inputs through the setter
    [TxIn::script(script)]: input number [i] gets the script [new_script i],
    or keeps its own where that is [None].  The inputs are shared objects, so
    the setter called on an input changes the transaction that lists it. *)
Fixpoint replace_scripts_from (i : nat) (new_script : nat -> option bytes_t)
    (txins : list TxIn.t) : list TxIn.t :=
  match txins with
  | [] => []
  | txin :: rest =>
      match new_script i with
      | Some script => TxIn.set_script txin script
      | None => txin
      end :: replace_scripts_from (S i) new_script rest
  end.

Definition replace_scripts (new_script : nat -> option bytes_t) (tx : Tx.t)
    : Tx.t :=
  Tx.set_txins tx (replace_scripts_from 0 new_script (Tx.txins_ tx)).

(** ** A small instance of the collaborators

    Stand-ins for the libraries, simple enough to be evaluated, on which the
    model is run at concrete inputs.  Keys are byte strings, a private key
    starts with a zero byte, a child key is its parent's key with the child
    number appended; a hash puts a tag in front of its input. *)
Module Demo.

Definition byte_of_Z (z : Z) : byte :=
  match Byte.of_N (Z.to_N (z mod 256)) with
  | Some b => b
  | None => x00
  end.

Definition hash : Hash :=
  {| sha256 := fun b => x20 :: b;
     ripemd160 := fun b => x14 :: b;
     sha256_2 := fun b => x20 :: x20 :: b |}.

Record hdkeychain : Type := mkhd {
  priv : secure_bytes_t;
  pub : bytes_t;
  cc : secure_bytes_t;
  num : Z;
  fp : Z;
  dep : Z
}.

Definition pub_of_priv (k : secure_bytes_t) : bytes_t :=
  x02 :: map (fun b => byte_of_Z (Z.of_N (Byte.to_N b) + 1)) (tl k).

Definition make (key : bytes_t) (chain_code : secure_bytes_t)
    (child_num parent_fp depth : Z) : hdkeychain :=
  match key with
  | x00 :: _ => mkhd key (pub_of_priv key) chain_code child_num parent_fp depth
  | _ => mkhd [] key chain_code child_num parent_fp depth
  end.

Definition getChild (h : hdkeychain) (i : Z) : hdkeychain :=
  mkhd (if empty (priv h) then [] else priv h ++ [byte_of_Z i])
       (pub h ++ [byte_of_Z (i + 1)]) (cc h ++ [byte_of_Z i]) i
       (Z.of_nat (List.length (pub h))) (dep h + 1).

Definition hdkeys : HDKeys :=
  {| HDKeychain := hdkeychain;
     hd_master := fun entropy => make (x00 :: entropy) (rev entropy) 0 0 0;
     hd_make := make;
     hd_getChild := getChild;
     hd_depth := dep;
     hd_parent_fp := fp;
     hd_child_num := num;
     hd_chain_code := cc;
     hd_key := fun h => if empty (priv h) then pub h else priv h;
     hd_privkey := priv;
     hd_pubkey := pub;
     hd_extkey := fun h => (if empty (priv h) then pub h else priv h) ++ cc h;
     hd_getPrivateSigningKey := fun h i => priv (getChild h i);
     hd_getPublicSigningKey := fun h i => pub (getChild h i) |}.

(** A script is the number of signatures it still needs and its public
    keys; the first byte of an input script is the number of signatures
    missing. *)
Record script : Type := mkscript {
  need : N;
  keys : list bytes_t
}.

Definition scriptlib : ScriptLib :=
  {| Script := script;
     Script_multisig := fun minsigs pubkeys =>
       if Z.of_nat (List.length pubkeys) <? minsigs
       then Throw "Invalid multisig parameters."
       else Ok (mkscript (Z.to_N minsigs) pubkeys);
     Script_parse := fun s =>
       match s with
       | [] => mkscript 0 []
       | b :: rest => mkscript (Byte.to_N b) [rest]
       end;
     txinscript_EDIT := fun s => byte_of_Z (Z.of_N (need s)) :: List.concat (keys s);
     txoutscript := fun s => xa9 :: List.concat (keys s) ++ [x87];
     sigsneeded := need;
     missingsigs := fun s => if (0 <? need s)%N then keys s else [] |}.

Definition serialize (tx : Coin.Transaction) : bytes_t :=
  byte_of_Z (Coin.version tx)
  :: flat_map (fun i => Coin.outpoint_hash (Coin.previousOut i)
                        ++ byte_of_Z (Coin.outpoint_index (Coin.previousOut i))
                        :: Coin.scriptSig i ++ [byte_of_Z (Coin.sequence i)])
       (Coin.inputs tx)
  ++ flat_map (fun o => byte_of_Z (Coin.value o) :: Coin.scriptPubKey o)
       (Coin.outputs tx)
  ++ [byte_of_Z (Coin.lockTime tx)].

Definition coindata : CoinData :=
  {| getSerialized := serialize;
     getHashLittleEndian := fun tx => rev (x20 :: x20 :: serialize tx) |}.

Definition delimited_list (items : list string) (delimiter : string) : string :=
  String.concat delimiter items.

(** Three root keychains, a child, and the inputs and output of a small
    transaction: [txin_signed] needs no signature, [txin_unsigned] needs
    two. *)
Definition root1 : result Keychain.t :=
  @Keychain.new hash hdkeys "alice" [x11; x22] [] [].
Definition root2 : result Keychain.t :=
  @Keychain.new hash hdkeys "bob" [x0a; x0b] [] [].
Definition root3 : result Keychain.t :=
  @Keychain.new hash hdkeys "carol" [x33; x01] [] [].

Definition get (r : result Keychain.t) : Keychain.t :=
  match r with Ok k => k | Throw _ => Keychain.default end.

Definition child1 : result Keychain.t :=
  @Keychain.child hash hdkeys (get root1) 7 true.

Definition txin_signed : TxIn.t := TxIn.new [xaa] 0 [x00; x47] 4294967295.
Definition txin_unsigned : TxIn.t := TxIn.new [xbb] 1 [x02] 4294967295.
Definition txout1 : TxOut.t := TxOut.new 5000 [x76; xa9] None TxOut.NONE.

(** A fresh transaction, [Tx()] with the default arguments. *)
Definition tx0 : Tx.t := Tx.new 1 0 4294967295 Tx.RECEIVED.

(** [set(1, {txin}, {txout1}, 0, 0xffffffff, status)] *)
Definition set_op (txin : TxIn.t) (status : Tx.status_t) : TxOp :=
  OpSet 1 (distinct [txin]) (distinct [txout1]) 0 4294967295 status.

Definition run (tx : Tx.t) (ops : list TxOp) : Tx.t :=
  @run_ops hash scriptlib coindata tx ops.

End Demo.

(** ** Predicates used in the statements *)

(** The stored ciphertexts are those of the private key and chain code now
    in memory: the state [setPrivateKeyLockKey] and [setChainCodeLockKey]
    leave behind. *)
Definition lock_keys_set (k : Keychain.t) : Prop :=
  Keychain.privkey_ k <> [] /\
  Keychain.chain_code_ k <> [] /\
  Keychain.privkey_ciphertext_ k = Keychain.privkey_ k /\
  Keychain.chain_code_ciphertext_ k = Keychain.chain_code_ k.

(** [lockAll(); unlockPrivateKey(key); unlockChainCode(key)] *)
Definition lock_unlock (k : Keychain.t) (key : secure_bytes_t)
    : result Keychain.t :=
  k' <- Keychain.unlockPrivateKey (Keychain.lockAll k) key ;;
  Ok (Keychain.unlockChainCode k' key).

(** hash = ripemd160(sha256(pubkey + chain_code)) on the fields in memory. *)
Definition hash_invariant `{Hash} (k : Keychain.t) : Prop :=
  Keychain.hash_ k =
  ripemd160 (sha256 (Keychain.pubkey_ k ++ Keychain.chain_code_ k)).

(** The keychains the three operations that write [hash_] hand back. *)
Inductive produced `{Hash} `{HDKeys} : Keychain.t -> Prop :=
| produced_new name entropy lock_key salt k :
    Keychain.new name entropy lock_key salt = Ok k -> produced k
| produced_child parent i get_private k :
    Keychain.child parent i get_private = Ok k -> produced k
| produced_assign this source :
    produced (Keychain.assign this source).

(** [a <= b] on byte vectors: not [b < a]. *)
Definition bytes_le (a b : bytes_t) : Prop := bytes_ltb b a = false.

(** The arguments [Account::Account] rejects. *)
Definition account_rejected (name : string) (minsigs : Z)
    (keychains : KeychainSet) : Prop :=
  name = "" \/ (exists rest, name = String "@"%char rest) \/
  15 < Z.of_nat (List.length keychains) \/
  Z.of_nat (List.length keychains) < minsigs.

(** Every chain code is in memory. *)
Definition chain_codes_unlocked (keychains : KeychainSet) : Prop :=
  Forall (fun k => Keychain.chain_code_ k <> []) keychains.

(** The order in which the two decoders test the flags. *)
Definition flag_order : list SigningScript.status_t :=
  [SigningScript.UNUSED; SigningScript.CHANGE; SigningScript.PENDING;
   SigningScript.RECEIVED; SigningScript.CANCELED].

(** Two results agree: both values related by [R], or the same exception. *)
Definition result_rel {A : Type} (R : A -> A -> Prop) (r1 r2 : result A) : Prop :=
  match r1, r2 with
  | Ok a1, Ok a2 => R a1 a2
  | Throw m1, Throw m2 => m1 = m2
  | _, _ => False
  end.

(** [f] throws nothing but [what]. *)
Definition throws_only {A B : Type} (what : string) (f : A -> result B) : Prop :=
  forall x m, f x = Throw m -> m = what.

(** Accounts over the three sample keychains, enumerated in two different
    orders, and an account without keychains; each with its second bin. *)
Module DemoBins.

Definition keychains123 : KeychainSet :=
  [Demo.get Demo.root1; Demo.get Demo.root2; Demo.get Demo.root3].
Definition keychains312 : KeychainSet :=
  [Demo.get Demo.root3; Demo.get Demo.root1; Demo.get Demo.root2].

(** [Account("savings", minsigs, keychains, 25, 0)], then
    [addBin("change")] and [addBin("default")]. *)
Definition open_account (minsigs : Z) (keychains : KeychainSet)
    : result (Account.t * AccountBin.t) :=
  a <- Account.new "savings" minsigs keychains 25 0 ;;
  ab <- addBin a "change" ;;
  addBin (fst ab) "default".

Definition default_bin (minsigs : Z) (keychains : KeychainSet) : AccountBin.t :=
  match open_account minsigs keychains with
  | Ok (_, bin) => bin
  | Throw _ => AccountBin.new (Account.mk "" 0 [] 0 0 []) 0 ""
  end.

Definition bin123 : AccountBin.t := default_bin 2 keychains123.
Definition bin312 : AccountBin.t := default_bin 2 keychains312.
Definition bin_empty : AccountBin.t := default_bin 0 [].

Definition load (bin : AccountBin.t) : AccountBin.t * result bool :=
  @AccountBin.loadKeychains Demo.hash Demo.hdkeys bin.

Definition new_script (bin : AccountBin.t) (index : Z)
    : AccountBin.t * result SigningScript.t :=
  @SigningScript.new Demo.hash Demo.hdkeys Demo.scriptlib bin index ""
    SigningScript.UNUSED.

End DemoBins.

(** ** More of the schema *)


(** [Key::privkey()].  The key holds a pointer to its root keychain;
    [root_keychain] is that keychain as it is when the call is made. *)
Definition Key_privkey `{HDKeys} (key : Key.t) (root_keychain : Keychain.t)
    : result secure_bytes_t :=
  if negb (Key.is_private_ key) then
    Throw "Key::privkey - cannot get private key from nonprivate key object."
  else
    locked <- Keychain.isPrivateKeyLocked root_keychain ;;
    if locked : bool then Throw "Key::privkey - private key is locked."
    else if Keychain.isChainCodeLocked root_keychain then
      Throw "Key::privkey - chain code is locked."
    else
      Keychain.getSigningPrivateKey root_keychain (Key.index_ key)
        (Key.derivation_path_ key).

(** [operator<] on [std::string] compares the characters as unsigned
    chars. *)
Definition string_ltb (a b : string) : bool :=
  by_key list_byte_of_string a b.

Module AccountInfo.

Record t : Type := mk {
  id_ : Z;
  name_ : string;
  minsigs_ : Z;
  keychain_names_ : list string;
  unused_pool_size_ : Z;
  time_created_ : Z;
  bin_names_ : list string
}.

(** The constructor sorts the keychain names. *)
Definition new (id : Z) (name : string) (minsigs : Z)
    (keychain_names : list string) (unused_pool_size time_created : Z)
    (bin_names : list string) : t :=
  mk id name minsigs (std_sort string_ltb keychain_names) unused_pool_size
     time_created bin_names.

End AccountInfo.

(** [Account::accountInfo()].  [id] is the id the persistence layer gave the
    account and [bins] are the bins its weak pointers point to, in the order
    of [bins_]. *)
Definition accountInfo (id : Z) (a : Account.t) (bins : list AccountBin.t)
    : AccountInfo.t :=
  let keychain_names := map Keychain.name_ (Account.keychains_ a) in
  let bin_names := map AccountBin.name_ bins in
  AccountInfo.new id (Account.name_ a) (Account.minsigs_ a) keychain_names
    (Account.unused_pool_size_ a) (Account.time_created_ a) bin_names.

(** [addBin] called once for each name, in order: the account after the
    calls and the bins they returned. *)
Fixpoint addBins (a : Account.t) (names : list string)
    : result (Account.t * list AccountBin.t) :=
  match names with
  | [] => Ok (a, [])
  | name :: rest =>
      ab <- addBin a name ;;
      r <- addBins (fst ab) rest ;;
      Ok (fst r, snd ab :: snd r)
  end.

(** The numbers [first], [first + 1], ... ([count] of them). *)
Fixpoint Zseq (first : Z) (count : nat) : list Z :=
  match count with
  | O => []
  | S n => first :: Zseq (first + 1) n
  end.

(** A status value put together again from a list of flags. *)
Definition flags_value (flags : list SigningScript.status_t) : Z :=
  fold_right (fun flag v => Z.lor (SigningScript.status_value flag) v) 0 flags.

(** The [Coin::Transaction] of the arguments of [Tx::set]. *)
Definition coin_of_parts (version : Z) (txins : list TxIn.t)
    (txouts : list TxOut.t) (locktime : Z) : Coin.Transaction :=
  Coin.mkTransaction version (map TxIn.toCoinClasses txins)
    (map TxOut.toCoinClasses txouts) locktime.

(** The steps of signing a transaction: scripts of inputs are replaced, and
    status and hashes are updated; no [set] is called. *)
Inductive SignStep : Type :=
| SignScripts (new_script : nat -> option bytes_t)
| SignStatus (status : Tx.status_t)
| SignUpdateStatus
| SignUpdateUnsignedHash
| SignUpdateHash.

Section Signing.
Context `{Hash} `{ScriptLib} `{CoinData}.

Definition sign_step (tx : Tx.t) (step : SignStep) : Tx.t :=
  match step with
  | SignScripts new_script => replace_scripts new_script tx
  | SignStatus status => Tx.status tx status
  | SignUpdateStatus => Tx.updateStatus tx
  | SignUpdateUnsignedHash => Tx.updateUnsignedHash tx
  | SignUpdateHash => Tx.updateHash tx
  end.

Definition sign_steps (tx : Tx.t) (steps : list SignStep) : Tx.t :=
  fold_left sign_step steps tx.
End Signing.

(** What a key of a signing script is made of: the root of the keychain
    [k], the path of [k] extended by the bin's index, the script's index. *)
Definition key_of_keychain (bin_index index : Z) (k : Keychain.t)
    (key : Key.t) : Prop :=
  Key.root_keychain_ key = Keychain.root k /\
  Key.derivation_path_ key = Keychain.derivation_path_ k ++ [bin_index] /\
  Key.index_ key = index /\
  Key.is_private_ key = Keychain.isPrivate (Keychain.root k).

(** More sample data: a keychain without private key (the public child
    number 3 of a sample root), and a signing run. *)
Module DemoMore.

Definition public_child : Keychain.t :=
  Demo.get (@Keychain.child Demo.hash Demo.hdkeys (Demo.get Demo.root2) 3 false).

Definition locked_root : Keychain.t := Keychain.lockAll (Demo.get Demo.root3).

Definition keychains_1_locked_2 : KeychainSet :=
  [Demo.get Demo.root1; locked_root; Demo.get Demo.root2].

Definition bin_1_locked_2 : AccountBin.t :=
  DemoBins.default_bin 2 keychains_1_locked_2.

Definition new_signing_script (bin : AccountBin.t) (label : string)
    : AccountBin.t * result SigningScript.t :=
  @newSigningScript Demo.hash Demo.hdkeys Demo.scriptlib bin label.

Definition get_script (r : result SigningScript.t) : SigningScript.t :=
  match r with
  | Ok s => s
  | Throw _ =>
      SigningScript.mk (AccountBin.account_ DemoBins.bin123) DemoBins.bin123
        0 "" SigningScript.UNUSED [] [] []
  end.

(** The script the constructor builds on the sample bin for index 0, and the
    first script [newSigningScript] hands out. *)
Definition script0 : SigningScript.t :=
  get_script (snd (DemoBins.new_script DemoBins.bin123 0)).
Definition script1 : SigningScript.t :=
  get_script (snd (new_signing_script DemoBins.bin123 "first")).

(** The key number 5 of a sample root, and its private key. *)
Definition key5 : Key.t :=
  match @Key.new Demo.hdkeys (Demo.get Demo.root1) 5 with
  | Ok key => key
  | Throw _ => Key.mk Keychain.default [] 0 [] false
  end.

Definition privkey5 : secure_bytes_t := [x00; x11; x22; x05].

Definition set1 (tx : Tx.t) (txin : TxIn.t) (status : Tx.status_t) : Tx.t :=
  @Tx.set Demo.hash Demo.scriptlib Demo.coindata tx 1 [txin] [Demo.txout1] 0
    4294967295 status.

Definition sign (tx : Tx.t) (steps : list SignStep) : Tx.t :=
  @sign_steps Demo.hash Demo.scriptlib Demo.coindata tx steps.

(** A root whose chain code is locked, the keychain [operator=] makes of it,
    and that keychain after [unlockChainCode]. *)
Definition locked_source : Keychain.t :=
  Keychain.lockChainCode (Demo.get Demo.root1).
Definition assigned : Keychain.t :=
  @Keychain.assign Demo.hash Keychain.default locked_source.
Definition assigned_unlocked : Keychain.t :=
  Keychain.unlockChainCode assigned [].

(** Two 1-of-3 accounts over the same keychains, one of them locked,
    enumerated in two orders; the default bin of each, and the same bins
    after a first [SigningScript] constructor call. *)
Definition keychains_1_2_locked : KeychainSet :=
  [Demo.get Demo.root1; Demo.get Demo.root2; locked_root].

Definition bin_a : AccountBin.t := DemoBins.default_bin 1 keychains_1_locked_2.
Definition bin_b : AccountBin.t := DemoBins.default_bin 1 keychains_1_2_locked.

Definition bin_a_used : AccountBin.t := fst (DemoBins.new_script bin_a 0).
Definition bin_b_used : AccountBin.t := fst (DemoBins.new_script bin_b 0).

(** One input listed twice in [set]: the two entries are one object. *)
Definition txins_aliased : list (shared TxIn.t) :=
  [(0%nat, Demo.txin_signed); (1%nat, Demo.txin_unsigned);
   (0%nat, Demo.txin_signed)].

Definition set_aliased : Tx.t :=
  @Tx.set_shared Demo.hash Demo.scriptlib Demo.coindata Demo.tx0 1
    txins_aliased (distinct [Demo.txout1]) 0 4294967295 Tx.RECEIVED.

End DemoMore.

(** ** Proof steps *)

(** Split on the condition of an [if] in the goal or in a hypothesis. *)
Ltac destruct_if :=
  match goal with
  | |- context [if ?b then _ else _] => destruct b eqn:?
  | H : context [if ?b then _ else _] |- _ => destruct b eqn:?
  end.

(** Split on every comparison of two bytes in sight. *)
Ltac byte_cases :=
  repeat match goal with
         | |- context [(?a <? ?b)%N] => destruct (N.ltb_spec a b)
         | H : context [(?a <? ?b)%N] |- _ => destruct (N.ltb_spec a b)
         end.

(** * Properties *)

Lemma empty_true_iff {A : Type} (v : list A) : empty v = true <-> v = [].
Proof. destruct v; simpl; split; congruence. Qed.

Lemma empty_false_iff {A : Type} (v : list A) : empty v = false <-> v <> [].
Proof. destruct v; simpl; split; congruence. Qed.

Lemma bind_Ok_inv {A B : Type} (r : result A) (f : A -> result B) (b : B) :
  bind r f = Ok b -> exists a, r = Ok a /\ f a = Ok b.
Proof. destruct r; simpl; [eauto | discriminate]. Qed.

(** ** Keychain: locking and unlocking *)

Section KeychainFacts.
Context `{Hash} `{HDKeys}.

Lemma setPrivateKeyLockKey_inv k lock_key salt k' :
  Keychain.setPrivateKeyLockKey k lock_key salt = Ok k' ->
  Keychain.privkey_ k <> [] /\
  k' = Keychain.mk (Keychain.name_ k) (Keychain.depth_ k)
         (Keychain.parent_fp_ k) (Keychain.child_num_ k) (Keychain.pubkey_ k)
         (Keychain.chain_code_ k) (Keychain.chain_code_ciphertext_ k)
         (Keychain.chain_code_salt_ k) (Keychain.privkey_ k)
         (Keychain.privkey_ k) salt (Keychain.parent_ k)
         (Keychain.derivation_path_ k) (Keychain.hash_ k).
Proof.
  unfold Keychain.setPrivateKeyLockKey.
  destruct (negb (Keychain.isPrivate k)); [discriminate |].
  destruct (empty (Keychain.privkey_ k)) eqn:E; [discriminate |].
  intros [= <-]. split; [now apply empty_false_iff | reflexivity].
Qed.

Lemma setChainCodeLockKey_inv k lock_key salt k' :
  Keychain.setChainCodeLockKey k lock_key salt = Ok k' ->
  Keychain.chain_code_ k <> [] /\
  k' = Keychain.mk (Keychain.name_ k) (Keychain.depth_ k)
         (Keychain.parent_fp_ k) (Keychain.child_num_ k) (Keychain.pubkey_ k)
         (Keychain.chain_code_ k) (Keychain.chain_code_ k) salt
         (Keychain.privkey_ k) (Keychain.privkey_ciphertext_ k)
         (Keychain.privkey_salt_ k) (Keychain.parent_ k)
         (Keychain.derivation_path_ k) (Keychain.hash_ k).
Proof.
  unfold Keychain.setChainCodeLockKey.
  destruct (empty (Keychain.chain_code_ k)) eqn:E; [discriminate |].
  intros [= <-]. split; [now apply empty_false_iff | reflexivity].
Qed.

(** Setting both lock keys, in either order, stores the ciphertexts of the
    values in memory. *)
Lemma setLockKeys_lock_keys_set k lk1 salt1 k1 lk2 salt2 k2 :
  Keychain.setPrivateKeyLockKey k lk1 salt1 = Ok k1 ->
  Keychain.setChainCodeLockKey k1 lk2 salt2 = Ok k2 ->
  lock_keys_set k2.
Proof.
  intros H1 H2.
  apply setPrivateKeyLockKey_inv in H1 as [Hp ->].
  apply setChainCodeLockKey_inv in H2 as [Hc ->].
  simpl in Hc. repeat split; simpl; assumption.
Qed.

Lemma setLockKeys_lock_keys_set' k lk1 salt1 k1 lk2 salt2 k2 :
  Keychain.setChainCodeLockKey k lk1 salt1 = Ok k1 ->
  Keychain.setPrivateKeyLockKey k1 lk2 salt2 = Ok k2 ->
  lock_keys_set k2.
Proof.
  intros H1 H2.
  apply setChainCodeLockKey_inv in H1 as [Hc ->].
  apply setPrivateKeyLockKey_inv in H2 as [Hp ->].
  simpl in Hp. repeat split; simpl; assumption.
Qed.

(** A root keychain comes out of its constructor with both lock keys set. *)
Lemma new_lock_keys_set name entropy lock_key salt k :
  Keychain.new name entropy lock_key salt = Ok k -> lock_keys_set k.
Proof.
  unfold Keychain.new. destruct (invalid_name name); [discriminate |].
  intros Hk. apply bind_Ok_inv in Hk as (k1 & H1 & H2).
  eapply setLockKeys_lock_keys_set; eassumption.
Qed.

(** A keychain fresh from [child] has no ciphertext stored. *)
Lemma child_no_ciphertext parent i get_private k :
  Keychain.child parent i get_private = Ok k ->
  Keychain.privkey_ciphertext_ k = [] /\
  Keychain.chain_code_ciphertext_ k = [].
Proof.
  unfold Keychain.child. intros Hk.
  repeat destruct_if; try discriminate; injection Hk as <-; auto.
Qed.

(** C1, as amended.  For a keychain whose private key and chain code are in
    memory and whose lock keys are set (the stored ciphertexts are those of
    the values in memory), [lockAll()] followed by [unlockPrivateKey(key)]
    and [unlockChainCode(key)] succeeds and gives back the very same
    keychain, private key and chain code included. *)
Theorem lock_unlock_roundtrip (k : Keychain.t) (key : secure_bytes_t) :
  lock_keys_set k -> lock_unlock k key = Ok k.
Proof.
  intros (Hp & Hc & Hpc & Hcc).
  unfold lock_unlock, Keychain.unlockPrivateKey, Keychain.lockAll,
    Keychain.isPrivate.
  destruct k as [n d pf cn pk c ccs csalt p pcs psalt par path h].
  simpl in *. subst pcs ccs.
  destruct p as [| b p]; [congruence |].
  destruct c as [| b' c]; [congruence |].
  reflexivity.
Qed.
End KeychainFacts.

(** The round trip at a sample root keychain. *)
Lemma lock_unlock_roundtrip_witness :
  lock_keys_set (Demo.get Demo.root1) /\
  lock_unlock (Demo.get Demo.root1) [x01] = Ok (Demo.get Demo.root1).
Proof.
  assert (Hs : lock_keys_set (Demo.get Demo.root1)).
  { unfold lock_keys_set. vm_compute. repeat split; discriminate. }
  split; [exact Hs | exact (lock_unlock_roundtrip _ [x01] Hs)].
Defined.

(** C1 as stated fails for a derived keychain: the private child number 7 of
    a sample root has its private key and chain code in memory, yet after
    [lockAll()] it counts as a public keychain, so [unlockPrivateKey] throws,
    and [unlockChainCode] brings back an empty chain code. *)
Lemma child_lock_unlock_fails :
  exists c,
    Demo.child1 = Ok c /\
    Keychain.privkey_ c <> [] /\ Keychain.chain_code_ c <> [] /\
    (forall key,
       lock_unlock c key =
       Throw "Cannot unlock the private key of a public keychain.") /\
    (forall key,
       Keychain.chain_code_ (Keychain.unlockChainCode (Keychain.lockAll c) key)
       = []).
Proof.
  eexists. split; [vm_compute; reflexivity |].
  repeat split; try discriminate; intros key; reflexivity.
Qed.

Section KeychainLockKey.

(** C10.  What [unlockPrivateKey] and [unlockChainCode] do does not depend
    on the lock key: with any two keys they give the same result (the same
    keychain, or the same exception).  Nor does what is stored: the two
    setters give the same result with any two keys, and the ciphertext they
    store is the cleartext itself. *)
Theorem unlock_ignores_lock_key (k : Keychain.t) (key1 key2 : secure_bytes_t)
    (salt : bytes_t) :
  Keychain.unlockPrivateKey k key1 = Keychain.unlockPrivateKey k key2 /\
  Keychain.unlockChainCode k key1 = Keychain.unlockChainCode k key2 /\
  lock_unlock k key1 = lock_unlock k key2 /\
  Keychain.setPrivateKeyLockKey k key1 salt =
    Keychain.setPrivateKeyLockKey k key2 salt /\
  Keychain.setChainCodeLockKey k key1 salt =
    Keychain.setChainCodeLockKey k key2 salt /\
  rmap Keychain.privkey_ciphertext_ (Keychain.setPrivateKeyLockKey k key1 salt)
    = rmap Keychain.privkey_ (Keychain.setPrivateKeyLockKey k key1 salt) /\
  rmap Keychain.chain_code_ciphertext_ (Keychain.setChainCodeLockKey k key1 salt)
    = rmap Keychain.chain_code_ (Keychain.setChainCodeLockKey k key1 salt).
Proof.
  repeat split; try reflexivity.
  - unfold Keychain.setPrivateKeyLockKey.
    destruct (negb (Keychain.isPrivate k)); [reflexivity |].
    destruct (empty (Keychain.privkey_ k)); reflexivity.
  - unfold Keychain.setChainCodeLockKey.
    destruct (empty (Keychain.chain_code_ k)); reflexivity.
Qed.
End KeychainLockKey.

(** ** Keychain: the identity hash *)

Section KeychainHash.
Context `{Hash} `{HDKeys}.

Lemma new_hash_invariant name entropy lock_key salt k :
  Keychain.new name entropy lock_key salt = Ok k -> hash_invariant k.
Proof.
  unfold Keychain.new. destruct (invalid_name name); [discriminate |].
  intros Hk. apply bind_Ok_inv in Hk as (k1 & H1 & H2).
  apply setPrivateKeyLockKey_inv in H1 as [_ ->].
  apply setChainCodeLockKey_inv in H2 as [_ ->].
  reflexivity.
Qed.

Lemma child_hash_invariant parent i get_private k :
  Keychain.child parent i get_private = Ok k -> hash_invariant k.
Proof.
  unfold Keychain.child. intros Hk.
  repeat destruct_if; try discriminate; injection Hk as <-; reflexivity.
Qed.

Lemma assign_hash_invariant this source :
  hash_invariant (Keychain.assign this source).
Proof. reflexivity. Qed.

(** Copy assignment hashes the chain code the source holds in memory: from
    a source whose chain code is locked, the hash is that of the public key
    alone. *)
Lemma assign_locked_source this source :
  Keychain.chain_code_ source = [] ->
  Keychain.hash_ (Keychain.assign this source) =
  ripemd160 (sha256 (Keychain.pubkey_ source)).
Proof.
  intros Hc. unfold Keychain.assign. simpl. rewrite Hc, app_nil_r.
  reflexivity.
Qed.

(** The constructor from entropy, [child] and copy assignment hand back a
    keychain whose hash is ripemd160(sha256(pubkey + chain_code)) for the
    public key and the chain code it holds in memory.  For the first two the
    chain code in memory is the keychain's chain code; copy assignment takes
    whatever the source holds in memory, which is nothing when the source is
    locked. *)
Lemma hash_invariant_produced (k : Keychain.t) :
  produced k -> hash_invariant k.
Proof.
  intros Hk. destruct Hk as [name entropy lock_key salt k Hk
                            | parent i get_private k Hk
                            | this source].
  - eapply new_hash_invariant; eassumption.
  - eapply child_hash_invariant; eassumption.
  - apply assign_hash_invariant.
Qed.

(** Copy assignment from a source whose chain code has been locked, followed
    by [unlockChainCode]: public key and chain code are those of the source
    before it was locked, and the hash is that of the public key alone. *)
Lemma assign_locked_then_unlocked this source key :
  Keychain.chain_code_ciphertext_ source = Keychain.chain_code_ source ->
  Keychain.pubkey_
    (Keychain.unlockChainCode
       (Keychain.assign this (Keychain.lockChainCode source)) key)
  = Keychain.pubkey_ source /\
  Keychain.chain_code_
    (Keychain.unlockChainCode
       (Keychain.assign this (Keychain.lockChainCode source)) key)
  = Keychain.chain_code_ source /\
  Keychain.hash_
    (Keychain.unlockChainCode
       (Keychain.assign this (Keychain.lockChainCode source)) key)
  = ripemd160 (sha256 (Keychain.pubkey_ source)).
Proof.
  intros Hc. unfold Keychain.unlockChainCode. simpl.
  rewrite app_nil_r. auto.
Qed.
End KeychainHash.

(** The invariant at a sample child keychain. *)
Lemma hash_invariant_produced_example :
  @hash_invariant Demo.hash (Demo.get Demo.child1).
Proof.
  apply (@hash_invariant_produced Demo.hash Demo.hdkeys).
  apply (@produced_child Demo.hash Demo.hdkeys (Demo.get Demo.root1) 7 true).
  vm_compute. reflexivity.
Qed.

(** The sample root keychain has the hash of its public key and chain
    code; the keychain assigned from it while its chain code is locked has
    another hash. *)
Lemma assigned_hash_differs :
  @hash_invariant Demo.hash (Demo.get Demo.root1) /\
  Keychain.hash_ DemoMore.assigned <> Keychain.hash_ (Demo.get Demo.root1).
Proof.
  split; [vm_compute; reflexivity | vm_compute; discriminate].
Qed.

(** C6 fails for copy assignment.  The chain code of a root keychain built
    from entropy is locked and the keychain is assigned to another.  The
    copy has the public key of the root and the chain code of the root as
    its stored chain code, which [unlockChainCode] brings back; but the hash
    of the copy, before and after unlocking, is ripemd160(sha256(pubkey))
    and not ripemd160(sha256(pubkey + chain_code)). *)
Lemma assign_locked_source_hash :
  Keychain.isChainCodeLocked DemoMore.locked_source = true /\
  Keychain.pubkey_ DemoMore.assigned = Keychain.pubkey_ (Demo.get Demo.root1) /\
  Keychain.chain_code_ciphertext_ DemoMore.assigned
    = Keychain.chain_code_ (Demo.get Demo.root1) /\
  Keychain.chain_code_ DemoMore.assigned_unlocked
    = Keychain.chain_code_ (Demo.get Demo.root1) /\
  Keychain.chain_code_ DemoMore.assigned_unlocked <> [] /\
  Keychain.pubkey_ DemoMore.assigned_unlocked
    = Keychain.pubkey_ (Demo.get Demo.root1) /\
  Keychain.hash_ DemoMore.assigned
    = @ripemd160 Demo.hash
        (@sha256 Demo.hash (Keychain.pubkey_ (Demo.get Demo.root1))) /\
  Keychain.hash_ DemoMore.assigned_unlocked = Keychain.hash_ DemoMore.assigned /\
  Keychain.hash_ DemoMore.assigned_unlocked
    <> @ripemd160 Demo.hash
         (@sha256 Demo.hash
            (Keychain.pubkey_ DemoMore.assigned_unlocked
             ++ Keychain.chain_code_ DemoMore.assigned_unlocked)).
Proof.
  repeat split; try (vm_compute; reflexivity); vm_compute; discriminate.
Qed.

(** ** Account construction *)

Lemma invalid_name_true_iff (name : string) :
  invalid_name name = true <->
  name = "" \/ exists rest, name = String "@"%char rest.
Proof.
  destruct name as [| c rest]; simpl.
  - split; auto.
  - rewrite Ascii.eqb_eq. split.
    + intros ->. right. eauto.
    + intros [Hn | [rest' Hn]]; congruence.
Qed.

(** C5, as amended.  [Account(name, minsigs, keychains, ...)] throws exactly
    when the name is empty or starts with '@', or there are more than 15
    keychains, or minsigs exceeds the number of keychains; there is no lower
    bound on the number of keychains.  Otherwise it succeeds, the fields of
    the account are the arguments, and the account has no bins. *)
Theorem Account_new_spec (name : string) (minsigs : Z) (keychains : KeychainSet)
    (unused_pool_size time_created : Z) :
  (account_rejected name minsigs keychains /\
   exists what,
     Account.new name minsigs keychains unused_pool_size time_created
     = Throw what) \/
  (~ account_rejected name minsigs keychains /\
   Account.new name minsigs keychains unused_pool_size time_created
   = Ok (Account.mk name minsigs keychains unused_pool_size time_created [])).
Proof.
  unfold Account.new, account_rejected.
  destruct (invalid_name name) eqn:En.
  { left. apply invalid_name_true_iff in En. split; [tauto | eauto]. }
  assert (Hn : ~ (name = "" \/ exists rest, name = String "@"%char rest)).
  { rewrite <- invalid_name_true_iff. congruence. }
  destruct (15 <? Z.of_nat (List.length keychains)) eqn:E15.
  { left. apply Z.ltb_lt in E15. split; [tauto | eauto]. }
  apply Z.ltb_ge in E15.
  destruct (Z.of_nat (List.length keychains) <? minsigs) eqn:Em.
  { left. apply Z.ltb_lt in Em. split; [tauto | eauto]. }
  apply Z.ltb_ge in Em.
  right. split; [| reflexivity].
  intros [Hr | [Hr | [Hr | Hr]]]; [tauto | tauto | lia | lia].
Qed.

(** The two bounds: sixteen keychains are rejected, and so is minsigs 3 over
    two keychains. *)
Lemma Account_new_16_keychains name minsigs keychains unused_pool_size time_created :
  List.length keychains = 16%nat ->
  is_ok (Account.new name minsigs keychains unused_pool_size time_created) = false.
Proof.
  intros Hl. unfold Account.new. rewrite Hl.
  destruct (invalid_name name); reflexivity.
Qed.

Lemma Account_new_3_of_2 name keychains unused_pool_size time_created :
  List.length keychains = 2%nat ->
  is_ok (Account.new name 3 keychains unused_pool_size time_created) = false.
Proof.
  intros Hl. unfold Account.new. rewrite Hl.
  destruct (invalid_name name); reflexivity.
Qed.

(** C5 as stated fails for an empty keychain set: its size, 0, is outside
    1-15, yet with minsigs 0 the account is constructed. *)
Lemma Account_new_no_keychains :
  ~ (1 <= Z.of_nat (List.length (@nil Keychain.t)) <= 15) /\
  Account.new "savings" 0 [] 25 0 = Ok (Account.mk "savings" 0 [] 25 0 []).
Proof. split; [simpl; lia | reflexivity]. Qed.

(** ** Decoding the status of a signing script *)

Lemma has_flag_none (status : Z) (flag : SigningScript.status_t) :
  Z.land status 31 = 0 -> SigningScript.has_flag status flag = false.
Proof.
  intros H0. unfold SigningScript.has_flag.
  replace (SigningScript.status_value flag)
    with (Z.land 31 (SigningScript.status_value flag))
    by (destruct flag; reflexivity).
  rewrite Z.land_assoc, H0, Z.land_0_l. reflexivity.
Qed.

(** C9, as amended.  For every status value both decoders list the flags that
    are set in the order UNUSED, CHANGE, PENDING, RECEIVED, CANCELED.  When
    none of the five is set, [getStatusString] returns "UNKNOWN" and
    [getStatusFlags] returns the empty vector. *)
Theorem status_decoding (delimited_list : list string -> string -> string)
    (status : Z) :
  SigningScript.getStatusFlags status
    = filter (SigningScript.has_flag status) flag_order /\
  SigningScript.getStatusString delimited_list status
    = (let flags := map SigningScript.status_name
                      (filter (SigningScript.has_flag status) flag_order) in
       if empty flags then "UNKNOWN" else delimited_list flags " | ") /\
  (Z.land status 31 = 0 ->
   SigningScript.getStatusString delimited_list status = "UNKNOWN" /\
   SigningScript.getStatusFlags status = []).
Proof.
  unfold SigningScript.getStatusFlags, SigningScript.getStatusString, flag_order.
  split; [| split].
  - simpl.
    destruct (SigningScript.has_flag status SigningScript.UNUSED),
      (SigningScript.has_flag status SigningScript.CHANGE),
      (SigningScript.has_flag status SigningScript.PENDING),
      (SigningScript.has_flag status SigningScript.RECEIVED),
      (SigningScript.has_flag status SigningScript.CANCELED); reflexivity.
  - simpl.
    destruct (SigningScript.has_flag status SigningScript.UNUSED),
      (SigningScript.has_flag status SigningScript.CHANGE),
      (SigningScript.has_flag status SigningScript.PENDING),
      (SigningScript.has_flag status SigningScript.RECEIVED),
      (SigningScript.has_flag status SigningScript.CANCELED); reflexivity.
  - intros H0. rewrite !(has_flag_none status _ H0). split; reflexivity.
Qed.

(** The decoders at status 0. *)
Lemma status_decoding_witness :
  Z.land 0 31 = 0 /\
  SigningScript.getStatusString Demo.delimited_list 0 = "UNKNOWN" /\
  SigningScript.getStatusFlags 0 = [].
Proof.
  split; [reflexivity |].
  exact (proj2 (proj2 (status_decoding Demo.delimited_list 0)) eq_refl).
Defined.

(** C9 as stated fails for [getStatusFlags]: at status 0 it returns the empty
    vector, not a marker. *)
Lemma getStatusFlags_0_empty : SigningScript.getStatusFlags 0 = [].
Proof. reflexivity. Qed.

(** ** Transactions: the unsigned hash *)

Lemma clearScriptSigs_replace_scripts_from (i : nat)
    (new_script : nat -> option bytes_t) (txins : list TxIn.t) :
  map (fun txin => Coin.mkTxIn (Coin.previousOut txin) [] (Coin.sequence txin))
    (map TxIn.toCoinClasses (replace_scripts_from i new_script txins))
  = map (fun txin => Coin.mkTxIn (Coin.previousOut txin) [] (Coin.sequence txin))
      (map TxIn.toCoinClasses txins).
Proof.
  revert i. induction txins as [| txin rest IH]; intros i; simpl.
  - reflexivity.
  - rewrite IH. destruct (new_script i); reflexivity.
Qed.

Lemma clearScriptSigs_replace_scripts (new_script : nat -> option bytes_t)
    (tx : Tx.t) :
  Coin.clearScriptSigs (Tx.toCoinClasses (replace_scripts new_script tx))
  = Coin.clearScriptSigs (Tx.toCoinClasses tx).
Proof.
  unfold Coin.clearScriptSigs, Tx.toCoinClasses, replace_scripts. simpl.
  rewrite clearScriptSigs_replace_scripts_from. reflexivity.
Qed.

Section UnsignedHash.
Context `{CoinData}.

(** C2.  Replace the scripts of any inputs of a transaction by any bytes:
    [updateUnsignedHash()] stores the same unsigned hash as for the
    transaction itself. *)
Theorem unsigned_hash_ignores_scripts (new_script : nat -> option bytes_t)
    (tx : Tx.t) :
  Tx.unsigned_hash_ (Tx.updateUnsignedHash (replace_scripts new_script tx))
  = Tx.unsigned_hash_ (Tx.updateUnsignedHash tx).
Proof.
  unfold Tx.updateUnsignedHash. simpl.
  rewrite clearScriptSigs_replace_scripts. reflexivity.
Qed.

(** The same for two transactions that agree on everything the unsigned hash
    reads but the scripts of their inputs. *)
Lemma unsigned_hash_same_but_scripts (tx1 tx2 : Tx.t) :
  Tx.version_ tx1 = Tx.version_ tx2 ->
  Tx.locktime_ tx1 = Tx.locktime_ tx2 ->
  map TxOut.toCoinClasses (Tx.txouts_ tx1)
    = map TxOut.toCoinClasses (Tx.txouts_ tx2) ->
  map (fun i => (TxIn.outhash_ i, TxIn.outindex_ i, TxIn.sequence_ i))
      (Tx.txins_ tx1)
    = map (fun i => (TxIn.outhash_ i, TxIn.outindex_ i, TxIn.sequence_ i))
        (Tx.txins_ tx2) ->
  Tx.unsigned_hash_ (Tx.updateUnsignedHash tx1)
  = Tx.unsigned_hash_ (Tx.updateUnsignedHash tx2).
Proof.
  intros Hv Hl Ho Hi.
  unfold Tx.updateUnsignedHash, Coin.clearScriptSigs, Tx.toCoinClasses. simpl.
  rewrite Hv, Hl, Ho. do 2 f_equal.
  rewrite !map_map. simpl.
  remember (Tx.txins_ tx1) as l1 eqn:E1. remember (Tx.txins_ tx2) as l2 eqn:E2.
  clear E1 E2 Hv Hl Ho. revert l2 Hi.
  induction l1 as [| a l1 IH]; intros [| b l2] Hi; simpl in *;
    try discriminate; [reflexivity |].
  injection Hi as Hh Hx Hs Ht. rewrite Hh, Hx, Hs. f_equal. now apply IH.
Qed.
End UnsignedHash.

(** ** Transactions: status and hash *)

Lemma status_neqb_false_iff (s1 s2 : Tx.status_t) :
  Tx.status_neqb s1 s2 = false <-> s1 = s2.
Proof.
  split.
  - destruct s1, s2; simpl; intros Hs; try reflexivity; discriminate Hs.
  - intros ->. destruct s2; reflexivity.
Qed.

Section TxStatus.
Context {hashlib : Hash} {scriptlib : ScriptLib} {coindata : CoinData}.

Lemma missingSigCount_txins (tx1 tx2 : Tx.t) :
  Tx.txins_ tx1 = Tx.txins_ tx2 ->
  Tx.missingSigCount tx1 = Tx.missingSigCount tx2.
Proof. unfold Tx.missingSigCount. now intros ->. Qed.

(** [updateStatus] leaves the transaction alone when no signature is missing
    and makes it UNSIGNED otherwise. *)
Lemma updateStatus_cases (tx : Tx.t) :
  (Tx.missingSigCount tx = 0%N /\ Tx.updateStatus tx = tx) \/
  ((0 < Tx.missingSigCount tx)%N /\
   Tx.updateStatus tx = Tx.set_status tx Tx.UNSIGNED).
Proof.
  unfold Tx.updateStatus.
  destruct (0 <? Tx.missingSigCount tx)%N eqn:E.
  - right. apply N.ltb_lt in E. auto.
  - left. apply N.ltb_ge in E. split; [lia | reflexivity].
Qed.

Lemma updateStatus_txins tx : Tx.txins_ (Tx.updateStatus tx) = Tx.txins_ tx.
Proof. unfold Tx.updateStatus. destruct (0 <? _)%N; reflexivity. Qed.

Lemma updateStatus_hash tx : Tx.hash_ (Tx.updateStatus tx) = Tx.hash_ tx.
Proof. unfold Tx.updateStatus. destruct (0 <? _)%N; reflexivity. Qed.

Lemma updateHash_status tx : Tx.status_ (Tx.updateHash tx) = Tx.status_ tx.
Proof. unfold Tx.updateHash. destruct (Tx.status_neqb _ _); reflexivity. Qed.

Lemma updateHash_txins tx : Tx.txins_ (Tx.updateHash tx) = Tx.txins_ tx.
Proof. unfold Tx.updateHash. destruct (Tx.status_neqb _ _); reflexivity. Qed.

(** [updateHash] does not write the hash of an UNSIGNED transaction. *)
Lemma updateHash_unsigned tx :
  Tx.status_ tx = Tx.UNSIGNED -> Tx.updateHash tx = tx.
Proof. unfold Tx.updateHash. now intros ->. Qed.

Lemma updateAll_status tx :
  Tx.status_ (Tx.updateAll tx) = Tx.status_ (Tx.updateStatus tx).
Proof. unfold Tx.updateAll. now rewrite updateHash_status. Qed.

Lemma updateAll_txins tx : Tx.txins_ (Tx.updateAll tx) = Tx.txins_ tx.
Proof.
  unfold Tx.updateAll. rewrite updateHash_txins. simpl.
  apply updateStatus_txins.
Qed.

Lemma updateAll_hash_unsigned tx :
  Tx.status_ (Tx.updateAll tx) = Tx.UNSIGNED ->
  Tx.hash_ (Tx.updateAll tx) = Tx.hash_ tx.
Proof.
  rewrite updateAll_status. intros Hs. unfold Tx.updateAll.
  rewrite updateHash_unsigned by exact Hs. simpl. apply updateStatus_hash.
Qed.

(** After the three updates, missing signatures mean status UNSIGNED. *)
Lemma updateAll_missing tx :
  (0 < Tx.missingSigCount (Tx.updateAll tx))%N ->
  Tx.status_ (Tx.updateAll tx) = Tx.UNSIGNED.
Proof.
  rewrite (missingSigCount_txins _ tx) by apply updateAll_txins.
  rewrite updateAll_status. intros Hm.
  destruct (updateStatus_cases tx) as [[H0 _] | [_ ->]]; [lia | reflexivity].
Qed.

(** What [set] leaves of status and hash: it is the three updates run on a
    transaction that has the hash of [tx] and the requested status. *)
Lemma run_op_set_shape (tx : Tx.t) (version : Z)
    (txins : list (shared TxIn.t)) (txouts : list (shared TxOut.t))
    (locktime timestamp : Z) (status : Tx.status_t) :
  exists tx1,
    run_op tx (OpSet version txins txouts locktime timestamp status)
      = Tx.updateAll tx1 /\
    Tx.hash_ tx1 = Tx.hash_ tx /\
    Tx.status_ tx1 = status.
Proof.
  eexists. split; [reflexivity |]. split; reflexivity.
Qed.

(** C3, as amended.  On a transaction whose hash is empty, whatever call
    comes next ([set], the status setter, [updateStatus],
    [updateUnsignedHash], [updateHash]): if the status is UNSIGNED
    afterwards, the hash is still empty.  If the call runs [updateStatus]
    ([set], or [updateStatus] itself) and signatures are missing afterwards,
    the status is UNSIGNED and the hash is empty. *)
Theorem hash_empty_while_unsigned (tx : Tx.t) (op : TxOp) :
  Tx.hash_ tx = [] ->
  (Tx.status_ (run_op tx op) = Tx.UNSIGNED -> Tx.hash_ (run_op tx op) = []) /\
  (runs_updateStatus op = true ->
   (0 < Tx.missingSigCount (run_op tx op))%N ->
   Tx.status_ (run_op tx op) = Tx.UNSIGNED /\ Tx.hash_ (run_op tx op) = []).
Proof.
  intros Hh.
  destruct op as [v ins outs l ts st | st | | |].
  - destruct (run_op_set_shape tx v ins outs l ts st) as (tx1 & Hr & H1 & _).
    rewrite Hr.
    assert (Hu : Tx.status_ (Tx.updateAll tx1) = Tx.UNSIGNED ->
                 Tx.hash_ (Tx.updateAll tx1) = []).
    { intros Hs. rewrite updateAll_hash_unsigned by exact Hs. congruence. }
    split; [exact Hu |]. intros _ Hm. apply updateAll_missing in Hm. auto.
  - simpl. unfold Tx.status.
    split; [| discriminate].
    destruct (Tx.status_neqb (Tx.status_ tx) st); auto.
  - simpl. split.
    + rewrite updateStatus_hash. auto.
    + intros _ Hm. rewrite updateStatus_hash. split; [| exact Hh].
      rewrite (missingSigCount_txins _ tx) in Hm by apply updateStatus_txins.
      destruct (updateStatus_cases tx) as [[Hz _] | [_ ->]]; [lia | reflexivity].
  - simpl. split; [auto | discriminate].
  - simpl. split; [| discriminate].
    intros Hs. rewrite updateHash_status in Hs.
    rewrite updateHash_unsigned by exact Hs. exact Hh.
Qed.

(** C7, as amended.  A call lowers the status value of a transaction only to
    the status that call was given (the setter and [set] store what they
    are given, whatever the status was), or to UNSIGNED with signatures
    missing ([updateStatus]). *)
Theorem status_lowered_only_on_request (tx : Tx.t) (op : TxOp) :
  Tx.status_value (Tx.status_ (run_op tx op))
    < Tx.status_value (Tx.status_ tx) ->
  requested_status op = Some (Tx.status_ (run_op tx op)) \/
  (Tx.status_ (run_op tx op) = Tx.UNSIGNED /\
   (0 < Tx.missingSigCount (run_op tx op))%N).
Proof.
  destruct op as [v ins outs l ts st | st | | |]; intros Hlt.
  - destruct (run_op_set_shape tx v ins outs l ts st) as (tx1 & Hr & _ & Hq).
    rewrite Hr. rewrite updateAll_status.
    rewrite (missingSigCount_txins _ tx1) by apply updateAll_txins.
    destruct (updateStatus_cases tx1) as [[_ ->] | [Hm ->]].
    + left. simpl. now rewrite Hq.
    + right. auto.
  - left. simpl in *. unfold Tx.status in *.
    destruct (Tx.status_neqb (Tx.status_ tx) st) eqn:En; [reflexivity |].
    apply status_neqb_false_iff in En. now subst.
  - right. simpl in *.
    rewrite (missingSigCount_txins _ tx) by apply updateStatus_txins.
    destruct (updateStatus_cases tx) as [[_ Hu] | [Hm Hu]]; rewrite Hu in *.
    + lia.
    + auto.
  - exfalso. simpl in Hlt. lia.
  - exfalso. simpl in Hlt. rewrite updateHash_status in Hlt. lia.
Qed.
End TxStatus.

(** A fresh transaction is set from an input that still needs two
    signatures: it is UNSIGNED and has no hash. *)
Lemma hash_empty_while_unsigned_witness :
  Tx.hash_ Demo.tx0 = [] /\
  Tx.status_
    (Demo.run Demo.tx0
       [Demo.set_op Demo.txin_unsigned Tx.RECEIVED])
  = Tx.UNSIGNED /\
  Tx.hash_
    (Demo.run Demo.tx0
       [Demo.set_op Demo.txin_unsigned Tx.RECEIVED])
  = [].
Proof.
  split; [reflexivity |].
  apply (proj2 (@hash_empty_while_unsigned Demo.hash Demo.scriptlib
                  Demo.coindata Demo.tx0
                  (Demo.set_op Demo.txin_unsigned Tx.RECEIVED) eq_refl)).
  - reflexivity.
  - vm_compute. reflexivity.
Defined.

(** C3 as stated fails through the status setter.  A transaction set from a
    fully signed input is hashed; [status(UNSIGNED)] then leaves it UNSIGNED
    with that hash.  And a transaction set from an input that needs two
    signatures is UNSIGNED; after [status(SENT)], [updateHash()] gives it a
    hash while the two signatures are still missing, against the header's
    own "Leave hash blank until fully signed". *)
Lemma unsigned_with_hash :
  (Tx.status_
     (Demo.run Demo.tx0
        [Demo.set_op Demo.txin_signed Tx.RECEIVED;
         OpStatus Tx.UNSIGNED]) = Tx.UNSIGNED /\
   Tx.hash_
     (Demo.run Demo.tx0
        [Demo.set_op Demo.txin_signed Tx.RECEIVED;
         OpStatus Tx.UNSIGNED]) <> []) /\
  (@Tx.missingSigCount Demo.scriptlib
     (Demo.run Demo.tx0
        [Demo.set_op Demo.txin_unsigned Tx.RECEIVED;
         OpStatus Tx.SENT; OpUpdateHash]) = 2%N /\
   Tx.hash_
     (Demo.run Demo.tx0
        [Demo.set_op Demo.txin_unsigned Tx.RECEIVED;
         OpStatus Tx.SENT; OpUpdateHash]) <> []).
Proof.
  split; split; try (vm_compute; reflexivity); vm_compute; discriminate.
Qed.

(** The setter takes a fresh transaction from RECEIVED to UNSENT. *)
Lemma status_lowered_only_on_request_witness :
  Tx.status_value (Tx.status_ (Demo.run Demo.tx0 [OpStatus Tx.UNSENT]))
    < Tx.status_value (Tx.status_ Demo.tx0) /\
  (requested_status (OpStatus Tx.UNSENT)
     = Some (Tx.status_ (Demo.run Demo.tx0 [OpStatus Tx.UNSENT])) \/
   (Tx.status_ (Demo.run Demo.tx0 [OpStatus Tx.UNSENT]) = Tx.UNSIGNED /\
    (0 < @Tx.missingSigCount Demo.scriptlib
           (Demo.run Demo.tx0 [OpStatus Tx.UNSENT]))%N)).
Proof.
  assert (Hlt : Tx.status_value
                  (Tx.status_ (Demo.run Demo.tx0 [OpStatus Tx.UNSENT]))
                < Tx.status_value (Tx.status_ Demo.tx0))
    by (vm_compute; reflexivity).
  split; [exact Hlt |].
  exact (@status_lowered_only_on_request Demo.hash Demo.scriptlib Demo.coindata
           Demo.tx0 (OpStatus Tx.UNSENT) Hlt).
Defined.

(** C7 as stated fails: a transaction that is SENT, not CONFIRMED, goes back
    to UNSENT through the setter, and a RECEIVED one whose input needs
    signatures goes back to UNSIGNED through [updateStatus()]. *)
Lemma status_regresses_unconfirmed :
  (Tx.status_ (Demo.run Demo.tx0 [OpStatus Tx.SENT]) = Tx.SENT /\
   Tx.status_ (Demo.run Demo.tx0 [OpStatus Tx.SENT; OpStatus Tx.UNSENT])
   = Tx.UNSENT /\
   Tx.status_value Tx.UNSENT < Tx.status_value Tx.SENT) /\
  (Tx.status_
     (Demo.run Demo.tx0
        [Demo.set_op Demo.txin_unsigned Tx.RECEIVED;
         OpStatus Tx.RECEIVED]) = Tx.RECEIVED /\
   Tx.status_
     (Demo.run Demo.tx0
        [Demo.set_op Demo.txin_unsigned Tx.RECEIVED;
         OpStatus Tx.RECEIVED; OpUpdateStatus]) = Tx.UNSIGNED /\
   Tx.status_value Tx.UNSIGNED < Tx.status_value Tx.RECEIVED).
Proof. repeat split. Qed.

(** ** AccountBin: loading the keychains *)

Section LoadKeychains.
Context {hashlib : Hash} {hdkeys : HDKeys}.

(** The public child of a keychain exists exactly when its chain code is in
    memory; the one exception [child] throws without [get_private] is the
    locked chain code. *)
Lemma child_public_ok (k : Keychain.t) (i : Z) :
  Keychain.chain_code_ k <> [] ->
  exists c, Keychain.child k i false = Ok c.
Proof.
  intros Hc. apply empty_false_iff in Hc.
  unfold Keychain.child. simpl. rewrite Hc. eauto.
Qed.

Lemma child_public_throws (i : Z) :
  throws_only "Chain code is locked." (fun k => Keychain.child k i false).
Proof.
  intros k m. unfold Keychain.child. simpl.
  destruct (empty (Keychain.chain_code_ k)); congruence.
Qed.

(** The loop against [mapM]: when no child throws, the cache grows by the
    children in order; when one throws, so does the loop. *)
Lemma load_loop_mapM (pending : list Keychain.t) (index : Z)
    (loaded : KeychainSet) :
  match mapM (fun k => Keychain.child k index false) pending with
  | Ok children =>
      AccountBin.load_loop pending index loaded = (loaded ++ children, Ok tt)
  | Throw what => snd (AccountBin.load_loop pending index loaded) = Throw what
  end.
Proof.
  revert loaded. induction pending as [| k rest IH]; intros loaded; simpl.
  - now rewrite app_nil_r.
  - destruct (Keychain.child k index false) as [c | what]; simpl; [| reflexivity].
    specialize (IH (loaded ++ [c])).
    destruct (mapM (fun k0 => Keychain.child k0 index false) rest); simpl.
    + rewrite IH, <- app_assoc. reflexivity.
    + exact IH.
Qed.

Lemma mapM_child_unlocked (keychains : KeychainSet) (index : Z) :
  chain_codes_unlocked keychains ->
  exists children,
    mapM (fun k => Keychain.child k index false) keychains = Ok children /\
    List.length children = List.length keychains.
Proof.
  induction 1 as [| k rest Hk _ (children & Hm & Hl)]; simpl.
  - exists []. auto.
  - destruct (child_public_ok k index Hk) as [c ->]. rewrite Hm. simpl.
    exists (c :: children). simpl. auto.
Qed.

(** Once the cache holds a keychain, [loadKeychains] returns false and
    changes nothing. *)
Lemma loadKeychains_loaded (bin : AccountBin.t) :
  AccountBin.keychains_ bin <> [] ->
  AccountBin.loadKeychains bin = (bin, Ok false).
Proof.
  intros Hk. apply empty_false_iff in Hk.
  unfold AccountBin.loadKeychains. now rewrite Hk.
Qed.

(** C8, as amended.  Let the account of a bin have at least one keychain and
    every chain code in memory, and let the bin's cache be empty.  The first
    [loadKeychains()] derives the child at the bin's index of every keychain
    of the account, caches them and returns true; a second call, and so every
    later one, returns false and leaves the bin as it is. *)
Theorem loadKeychains_idempotent (bin : AccountBin.t) :
  AccountBin.keychains_ bin = [] ->
  Account.keychains_ (AccountBin.account_ bin) <> [] ->
  chain_codes_unlocked (Account.keychains_ (AccountBin.account_ bin)) ->
  exists children,
    mapM (fun k => Keychain.child k (AccountBin.index_ bin) false)
      (Account.keychains_ (AccountBin.account_ bin)) = Ok children /\
    AccountBin.loadKeychains bin
      = (AccountBin.set_keychains bin children, Ok true) /\
    forall n : nat,
      Nat.iter (S n) (fun b => fst (AccountBin.loadKeychains b))
        (AccountBin.set_keychains bin children)
      = AccountBin.set_keychains bin children /\
      AccountBin.loadKeychains
        (Nat.iter n (fun b => fst (AccountBin.loadKeychains b))
           (AccountBin.set_keychains bin children))
      = (AccountBin.set_keychains bin children, Ok false).
Proof.
  intros Hempty Hne Hun.
  destruct (mapM_child_unlocked _ (AccountBin.index_ bin) Hun)
    as (children & Hm & Hl).
  exists children. split; [exact Hm |].
  assert (Hc : AccountBin.keychains_ (AccountBin.set_keychains bin children)
               <> []).
  { simpl. intros ->. simpl in Hl.
    destruct (Account.keychains_ (AccountBin.account_ bin));
      [congruence | discriminate]. }
  split.
  - unfold AccountBin.loadKeychains. rewrite Hempty. simpl.
    pose proof (load_loop_mapM (Account.keychains_ (AccountBin.account_ bin))
                  (AccountBin.index_ bin) []) as Hloop.
    rewrite Hm in Hloop. rewrite Hloop. reflexivity.
  - assert (Hiter : forall n,
              Nat.iter n (fun b => fst (AccountBin.loadKeychains b))
                (AccountBin.set_keychains bin children)
              = AccountBin.set_keychains bin children).
    { induction n as [| n IHn]; [reflexivity |].
      simpl. rewrite IHn, (loadKeychains_loaded _ Hc). reflexivity. }
    intros n. split.
    + apply Hiter.
    + rewrite Hiter. apply loadKeychains_loaded, Hc.
Qed.
End LoadKeychains.

(** The bin of the account over the three sample keychains. *)
Lemma loadKeychains_idempotent_witness :
  AccountBin.keychains_ DemoBins.bin123 = [] /\
  Account.keychains_ (AccountBin.account_ DemoBins.bin123) <> [] /\
  chain_codes_unlocked (Account.keychains_ (AccountBin.account_ DemoBins.bin123)) /\
  exists children,
    snd (DemoBins.load DemoBins.bin123) = Ok true /\
    AccountBin.keychains_ (fst (DemoBins.load DemoBins.bin123)) = children /\
    DemoBins.load (fst (DemoBins.load DemoBins.bin123))
      = (AccountBin.set_keychains DemoBins.bin123 children, Ok false).
Proof.
  assert (H1 : AccountBin.keychains_ DemoBins.bin123 = []) by reflexivity.
  assert (H2 : Account.keychains_ (AccountBin.account_ DemoBins.bin123) <> [])
    by (vm_compute; discriminate).
  assert (H3 : chain_codes_unlocked
                 (Account.keychains_ (AccountBin.account_ DemoBins.bin123))).
  { unfold chain_codes_unlocked. vm_compute.
    repeat (constructor; [discriminate |]). constructor. }
  split; [exact H1 |]. split; [exact H2 |]. split; [exact H3 |].
  destruct (@loadKeychains_idempotent Demo.hash Demo.hdkeys DemoBins.bin123
              H1 H2 H3) as (children & _ & Hfirst & Hlater).
  exists children. unfold DemoBins.load. rewrite Hfirst. simpl.
  split; [reflexivity |]. split; [reflexivity |].
  exact (proj2 (Hlater 0%nat)).
Defined.

(** C8 as stated fails for the bin of an account without keychains: the
    first call returns true and caches nothing, and so does the second. *)
Lemma loadKeychains_empty_account_reloads :
  DemoBins.open_account 0 []
    = Ok (AccountBin.account_ DemoBins.bin_empty, DemoBins.bin_empty) /\
  snd (DemoBins.load DemoBins.bin_empty) = Ok true /\
  snd (DemoBins.load (fst (DemoBins.load DemoBins.bin_empty))) = Ok true.
Proof. repeat split. Qed.

(** ** The order on byte vectors *)

Lemma to_N_inj (x y : byte) : Byte.to_N x = Byte.to_N y -> x = y.
Proof.
  intros Hxy. pose proof (Byte.of_to_N x) as Hx. rewrite Hxy in Hx.
  rewrite Byte.of_to_N in Hx. congruence.
Qed.

Lemma bytes_ltb_asym (a b : bytes_t) :
  bytes_ltb a b = true -> bytes_ltb b a = false.
Proof.
  revert b. induction a as [| x a IH]; intros [| y b]; simpl; try congruence.
  byte_cases; try congruence; try lia. apply IH.
Qed.

Lemma bytes_le_antisym (a b : bytes_t) :
  bytes_le a b -> bytes_le b a -> a = b.
Proof.
  unfold bytes_le.
  revert b. induction a as [| x a IH]; intros [| y b]; simpl; try congruence.
  byte_cases; try congruence; try lia.
  intros Hba Hab. f_equal; [apply to_N_inj; lia | now apply IH].
Qed.

Lemma bytes_le_trans (a b c : bytes_t) :
  bytes_le a b -> bytes_le b c -> bytes_le a c.
Proof.
  unfold bytes_le.
  revert b c. induction a as [| x a IH]; intros [| y b] [| z c]; simpl;
    try congruence.
  byte_cases; try congruence; try lia. apply IH.
Qed.

(** Two ordered rearrangements of the same byte vectors are equal. *)
Lemma sorted_permutation_unique (l1 l2 : list bytes_t) :
  StronglySorted bytes_le l1 -> StronglySorted bytes_le l2 ->
  Permutation l1 l2 -> l1 = l2.
Proof.
  intros Hs1. revert l2.
  induction Hs1 as [| a l1 Hs1 IH Ha]; intros l2 Hs2 Hp.
  - apply Permutation_nil in Hp. now subst.
  - destruct Hs2 as [| b l2 Hs2 Hb].
    + apply Permutation_sym, Permutation_nil in Hp. discriminate.
    + assert (Hab : a = b).
      { apply bytes_le_antisym.
        - assert (Hin : In b (a :: l1))
            by (eapply Permutation_in; [apply Permutation_sym, Hp | now left]).
          destruct Hin as [-> | Hin].
          + unfold bytes_le. destruct (bytes_ltb b b) eqn:E; [| reflexivity].
            now rewrite (bytes_ltb_asym _ _ E) in E.
          + rewrite Forall_forall in Ha. now apply Ha.
        - assert (Hin : In a (b :: l2))
            by (eapply Permutation_in; [apply Hp | now left]).
          destruct Hin as [-> | Hin].
          + unfold bytes_le. destruct (bytes_ltb a a) eqn:E; [| reflexivity].
            now rewrite (bytes_ltb_asym _ _ E) in E.
          + rewrite Forall_forall in Hb. now apply Hb. }
      subst b. f_equal. apply IH; [exact Hs2 |].
      eapply Permutation_cons_inv; exact Hp.
Qed.

(** ** Sorting by a byte vector *)

Section SortByKey.
Context {A : Type} (key : A -> bytes_t).

Lemma sort_insert_permutation (x : A) (l : list A) :
  Permutation (x :: l) (sort_insert (by_key key) x l).
Proof.
  induction l as [| y l IH]; simpl; [reflexivity |].
  destruct (by_key key y x); [| reflexivity].
  rewrite perm_swap. now apply perm_skip.
Qed.

Lemma std_sort_permutation (l : list A) : Permutation l (std_sort (by_key key) l).
Proof.
  induction l as [| x l IH]; simpl; [reflexivity |].
  rewrite <- sort_insert_permutation. now apply perm_skip.
Qed.

Lemma sort_insert_sorted (x : A) (l : list A) :
  StronglySorted bytes_le (map key l) ->
  StronglySorted bytes_le (map key (sort_insert (by_key key) x l)).
Proof.
  induction l as [| y l IH]; simpl; intros Hs.
  - constructor; constructor.
  - apply StronglySorted_inv in Hs as [Hs Hy].
    unfold by_key at 1. destruct (bytes_ltb (key y) (key x)) eqn:E; simpl.
    + constructor; [now apply IH |].
      rewrite Forall_forall. intros k Hk.
      apply (Permutation_in _ (Permutation_map key
               (Permutation_sym (sort_insert_permutation x l)))) in Hk.
      destruct Hk as [<- | Hk].
      * unfold bytes_le. now apply bytes_ltb_asym.
      * rewrite Forall_forall in Hy. now apply Hy.
    + constructor; [now constructor |].
      constructor; [exact E |].
      rewrite Forall_forall in Hy |- *. intros k Hk.
      eapply bytes_le_trans; [exact E | now apply Hy].
Qed.

Lemma std_sort_sorted (l : list A) :
  StronglySorted bytes_le (map key (std_sort (by_key key) l)).
Proof.
  induction l as [| x l IH]; simpl; [constructor | now apply sort_insert_sorted].
Qed.

(** Sorting two rearrangements of the same elements puts the same byte
    vectors in the same places. *)
Lemma std_sort_canonical (l1 l2 : list A) :
  Permutation l1 l2 ->
  map key (std_sort (by_key key) l1) = map key (std_sort (by_key key) l2).
Proof.
  intros Hp. apply sorted_permutation_unique; try apply std_sort_sorted.
  apply Permutation_map.
  rewrite <- (std_sort_permutation l1), <- (std_sort_permutation l2).
  exact Hp.
Qed.
End SortByKey.

(** ** Enumeration order and exceptions *)

Lemma result_rel_trans {A : Type} (R : A -> A -> Prop) (r1 r2 r3 : result A) :
  (forall a b c, R a b -> R b c -> R a c) ->
  result_rel R r1 r2 -> result_rel R r2 r3 -> result_rel R r1 r3.
Proof.
  intros HR. destruct r1, r2, r3; simpl; try contradiction; try congruence.
  apply HR.
Qed.

(** When [f] can throw one exception only, running it over a rearranged list
    throws in the same cases, and otherwise gives rearranged results. *)
Lemma mapM_permutation {A B : Type} (f : A -> result B) (what : string)
    (l1 l2 : list A) :
  throws_only what f ->
  Permutation l1 l2 ->
  result_rel (@Permutation B) (mapM f l1) (mapM f l2).
Proof.
  intros Hf Hp. induction Hp as [| x l l' Hp IH | x y l | l l' l'' _ IH1 _ IH2].
  - simpl. constructor.
  - simpl. destruct (f x) as [b | m]; simpl; [| reflexivity].
    destruct (mapM f l), (mapM f l'); simpl in *; try contradiction; auto.
  - simpl.
    destruct (f x) as [b | m] eqn:Ex, (f y) as [b' | m'] eqn:Ey; simpl.
    + destruct (mapM f l); simpl; [apply perm_swap | reflexivity].
    + reflexivity.
    + reflexivity.
    + apply Hf in Ex, Ey. congruence.
  - eapply result_rel_trans; [| exact IH1 | exact IH2].
    intros a b c. apply Permutation_trans.
Qed.

(** ** SigningScript: the scripts do not depend on the enumeration order *)

Section CanonicalScripts.
Context {hashlib : Hash} {hdkeys : HDKeys} {scriptlib : ScriptLib}.

Lemma Key_new_throws (index : Z) :
  throws_only "Chain code is locked." (fun k => Key.new k index).
Proof.
  intros k m. unfold Key.new, Keychain.getSigningPublicKey.
  destruct (empty (Keychain.chain_code_ k)); simpl; congruence.
Qed.

(** The constructor's body on two bins whose loaded keychains are
    rearrangements of each other. *)
Lemma build_permutation (bin1 bin2 : AccountBin.t) (index : Z)
    (label1 label2 : string) (status1 status2 : SigningScript.status_t) :
  Account.minsigs_ (AccountBin.account_ bin1)
    = Account.minsigs_ (AccountBin.account_ bin2) ->
  Permutation (AccountBin.keychains_ bin1) (AccountBin.keychains_ bin2) ->
  rmap SigningScript.scripts (SigningScript.build bin1 index label1 status1)
  = rmap SigningScript.scripts (SigningScript.build bin2 index label2 status2).
Proof.
  intros Hm Hp. unfold SigningScript.build.
  pose proof (mapM_permutation _ _ _ _ (Key_new_throws index) Hp) as Hk.
  destruct (mapM (fun keychain => Key.new keychain index)
              (AccountBin.keychains_ bin1)) as [keys1 | m1],
           (mapM (fun keychain => Key.new keychain index)
              (AccountBin.keychains_ bin2)) as [keys2 | m2];
    simpl in Hk; try contradiction; simpl; [| congruence].
  change (std_sort Key.ltb keys1) with (std_sort (by_key Key.pubkey_) keys1).
  change (std_sort Key.ltb keys2) with (std_sort (by_key Key.pubkey_) keys2).
  rewrite (std_sort_canonical Key.pubkey_ keys1 keys2 Hk), Hm.
  destruct (Script_multisig _ _); reflexivity.
Qed.

(** What the constructor's body builds: the keys are in ascending order of
    their public keys, and the two scripts are those of the multisig script
    over minsigs and the public keys in that order. *)
Lemma build_sorted (bin : AccountBin.t) (index : Z) (label : string)
    (status : SigningScript.status_t) (s : SigningScript.t) :
  SigningScript.build bin index label status = Ok s ->
  StronglySorted bytes_le (map Key.pubkey_ (SigningScript.keys_ s)) /\
  exists script,
    Script_multisig (Account.minsigs_ (AccountBin.account_ bin))
      (map Key.pubkey_ (SigningScript.keys_ s)) = Ok script /\
    SigningScript.scripts s = (txinscript_EDIT script, txoutscript script).
Proof.
  unfold SigningScript.build.
  destruct (mapM (fun keychain => Key.new keychain index)
              (AccountBin.keychains_ bin)) as [keys | m];
    simpl; [| discriminate].
  destruct (Script_multisig _ _) as [script | m] eqn:Es; simpl;
    [| discriminate].
  intros [= <-]. simpl. split.
  - change (std_sort Key.ltb keys) with (std_sort (by_key Key.pubkey_) keys).
    apply std_sort_sorted.
  - exists script. split; [exact Es | reflexivity].
Qed.

(** [loadKeychains] on two bins of the same index whose accounts hold
    rearranged keychains and whose caches are rearrangements of each other:
    the calls return the same, and when they return, the caches are again
    rearrangements of each other. *)
Lemma loadKeychains_permutation (bin1 bin2 : AccountBin.t) :
  AccountBin.index_ bin1 = AccountBin.index_ bin2 ->
  Permutation (Account.keychains_ (AccountBin.account_ bin1))
    (Account.keychains_ (AccountBin.account_ bin2)) ->
  Permutation (AccountBin.keychains_ bin1) (AccountBin.keychains_ bin2) ->
  result_rel eq (snd (AccountBin.loadKeychains bin1))
    (snd (AccountBin.loadKeychains bin2)) /\
  AccountBin.account_ (fst (AccountBin.loadKeychains bin1))
    = AccountBin.account_ bin1 /\
  AccountBin.account_ (fst (AccountBin.loadKeychains bin2))
    = AccountBin.account_ bin2 /\
  (is_ok (snd (AccountBin.loadKeychains bin1)) = true ->
   Permutation (AccountBin.keychains_ (fst (AccountBin.loadKeychains bin1)))
     (AccountBin.keychains_ (fst (AccountBin.loadKeychains bin2)))).
Proof.
  intros Hi Ha Hc. unfold AccountBin.loadKeychains.
  destruct (AccountBin.keychains_ bin1) as [| k1 c1] eqn:E1.
  - apply Permutation_nil in Hc. rewrite Hc. simpl.
    pose proof (load_loop_mapM (Account.keychains_ (AccountBin.account_ bin1))
                  (AccountBin.index_ bin1) []) as L1.
    pose proof (load_loop_mapM (Account.keychains_ (AccountBin.account_ bin2))
                  (AccountBin.index_ bin2) []) as L2.
    pose proof (mapM_permutation _ _ _ _
                  (child_public_throws (AccountBin.index_ bin1)) Ha) as Hk.
    rewrite <- Hi in L2.
    destruct (mapM (fun k => Keychain.child k (AccountBin.index_ bin1) false)
                (Account.keychains_ (AccountBin.account_ bin1))) as [cs1 | m1],
             (mapM (fun k => Keychain.child k (AccountBin.index_ bin1) false)
                (Account.keychains_ (AccountBin.account_ bin2))) as [cs2 | m2];
      simpl in Hk; try contradiction.
    + rewrite <- Hi, L1, L2. simpl. auto.
    + rewrite <- Hi.
      destruct (AccountBin.load_loop _ _ _) as [ks1 r1],
               (AccountBin.load_loop _ _ _) as [ks2 r2].
      simpl in *. subst. simpl. repeat split; discriminate.
  - destruct (AccountBin.keychains_ bin2) as [| k2 c2] eqn:E2.
    + apply Permutation_sym, Permutation_nil in Hc. discriminate.
    + simpl. rewrite E1, E2. auto.
Qed.

(** C4, as amended.  Take two bins with the same index whose accounts have
    the same minsigs and the same keychains, enumerated in any two orders,
    and whose caches of derived keychains hold the same keychains in any two
    orders, as when both are not loaded yet or both are loaded in full.  For
    the same script index the constructor either throws the same exception
    for both or builds the same txinscript and the same txoutscript.  The
    keys of the script it builds are in ascending order of their public
    keys, and the scripts are those of the multisig script over minsigs and
    the public keys in that order. *)
Theorem canonical_scripts (bin1 bin2 : AccountBin.t) (index : Z)
    (label1 label2 : string) (status1 status2 : SigningScript.status_t) :
  AccountBin.index_ bin1 = AccountBin.index_ bin2 ->
  Account.minsigs_ (AccountBin.account_ bin1)
    = Account.minsigs_ (AccountBin.account_ bin2) ->
  Permutation (Account.keychains_ (AccountBin.account_ bin1))
    (Account.keychains_ (AccountBin.account_ bin2)) ->
  Permutation (AccountBin.keychains_ bin1) (AccountBin.keychains_ bin2) ->
  rmap SigningScript.scripts
    (snd (SigningScript.new bin1 index label1 status1))
  = rmap SigningScript.scripts
      (snd (SigningScript.new bin2 index label2 status2)) /\
  forall s,
    snd (SigningScript.new bin1 index label1 status1) = Ok s ->
    StronglySorted bytes_le (map Key.pubkey_ (SigningScript.keys_ s)) /\
    exists script,
      Script_multisig (Account.minsigs_ (AccountBin.account_ bin1))
        (map Key.pubkey_ (SigningScript.keys_ s)) = Ok script /\
      SigningScript.scripts s = (txinscript_EDIT script, txoutscript script).
Proof.
  intros Hi Hm Ha Hc.
  destruct (loadKeychains_permutation bin1 bin2 Hi Ha Hc)
    as (Hr & Ha1 & Ha2 & Hk).
  unfold SigningScript.new.
  destruct (AccountBin.loadKeychains bin1) as [b1 r1],
           (AccountBin.loadKeychains bin2) as [b2 r2].
  simpl in *. split.
  - destruct r1 as [v1 | m1], r2 as [v2 | m2]; simpl in Hr;
      try contradiction; simpl; [| congruence].
    apply build_permutation; [congruence | now apply Hk].
  - intros s Hs. destruct r1 as [v1 | m1]; simpl in Hs; [| discriminate].
    rewrite <- Ha1. eapply build_sorted. exact Hs.
Qed.
End CanonicalScripts.

(** The bins of two accounts over the three sample keychains, enumerated as
    1, 2, 3 and as 3, 1, 2: the first script of each is built, and the
    scripts are the same. *)
Lemma canonical_scripts_witness :
  AccountBin.index_ DemoBins.bin123 = AccountBin.index_ DemoBins.bin312 /\
  Account.minsigs_ (AccountBin.account_ DemoBins.bin123)
    = Account.minsigs_ (AccountBin.account_ DemoBins.bin312) /\
  Permutation (Account.keychains_ (AccountBin.account_ DemoBins.bin123))
    (Account.keychains_ (AccountBin.account_ DemoBins.bin312)) /\
  Permutation (AccountBin.keychains_ DemoBins.bin123)
    (AccountBin.keychains_ DemoBins.bin312) /\
  is_ok (snd (DemoBins.new_script DemoBins.bin123 0)) = true /\
  rmap SigningScript.scripts (snd (DemoBins.new_script DemoBins.bin123 0))
  = rmap SigningScript.scripts (snd (DemoBins.new_script DemoBins.bin312 0)).
Proof.
  assert (Ha : Permutation
                 (Account.keychains_ (AccountBin.account_ DemoBins.bin123))
                 (Account.keychains_ (AccountBin.account_ DemoBins.bin312))).
  { change (Permutation DemoBins.keychains123 DemoBins.keychains312).
    unfold DemoBins.keychains123, DemoBins.keychains312.
    eapply perm_trans; [apply perm_skip, perm_swap | apply perm_swap]. }
  assert (Hc : Permutation (AccountBin.keychains_ DemoBins.bin123)
                 (AccountBin.keychains_ DemoBins.bin312))
    by (change (Permutation (@nil Keychain.t) []); constructor).
  split; [reflexivity |]. split; [reflexivity |].
  split; [exact Ha |]. split; [exact Hc |].
  split; [vm_compute; reflexivity |].
  exact (proj1 (@canonical_scripts Demo.hash Demo.hdkeys Demo.scriptlib
                  DemoBins.bin123 DemoBins.bin312 0 "" ""
                  SigningScript.UNUSED SigningScript.UNUSED eq_refl eq_refl
                  Ha Hc)).
Defined.

(** C4 as stated fails when the caches differ.  Two 1-of-3 accounts hold
    the same three keychains, one of them with its chain code locked,
    enumerated as alice, carol (locked), bob and as alice, bob, carol
    (locked).  A first constructor call on the default bin of each throws
    "Chain code is locked." and leaves in the cache the children derived
    before the locked keychain was reached: one for the first bin, two for
    the second.  The constructor is then called with script index 1 on both
    bins: same keychains, same minsigs, same bin index, same script index,
    and it builds a 1-of-1 script for the first and a 1-of-2 script for the
    second. *)
Lemma partial_cache_scripts_differ :
  Permutation (Account.keychains_ (AccountBin.account_ DemoMore.bin_a_used))
    (Account.keychains_ (AccountBin.account_ DemoMore.bin_b_used)) /\
  Account.minsigs_ (AccountBin.account_ DemoMore.bin_a_used)
    = Account.minsigs_ (AccountBin.account_ DemoMore.bin_b_used) /\
  AccountBin.index_ DemoMore.bin_a_used
    = AccountBin.index_ DemoMore.bin_b_used /\
  snd (DemoBins.new_script DemoMore.bin_a 0) = Throw "Chain code is locked." /\
  snd (DemoBins.new_script DemoMore.bin_b 0) = Throw "Chain code is locked." /\
  List.length (AccountBin.keychains_ DemoMore.bin_a_used) = 1%nat /\
  List.length (AccountBin.keychains_ DemoMore.bin_b_used) = 2%nat /\
  rmap (fun s => List.length (SigningScript.keys_ s))
    (snd (DemoBins.new_script DemoMore.bin_a_used 1)) = Ok 1%nat /\
  rmap (fun s => List.length (SigningScript.keys_ s))
    (snd (DemoBins.new_script DemoMore.bin_b_used 1)) = Ok 2%nat /\
  rmap SigningScript.txoutscript_
    (snd (DemoBins.new_script DemoMore.bin_a_used 1))
  <> rmap SigningScript.txoutscript_
       (snd (DemoBins.new_script DemoMore.bin_b_used 1)) /\
  rmap SigningScript.txinscript_
    (snd (DemoBins.new_script DemoMore.bin_a_used 1))
  <> rmap SigningScript.txinscript_
       (snd (DemoBins.new_script DemoMore.bin_b_used 1)).
Proof.
  split.
  { change (Permutation DemoMore.keychains_1_locked_2
              DemoMore.keychains_1_2_locked).
    unfold DemoMore.keychains_1_locked_2, DemoMore.keychains_1_2_locked.
    apply perm_skip, perm_swap. }
  repeat split; try (vm_compute; reflexivity); vm_compute; discriminate.
Qed.

(** * Further properties of the schema *)

(** ** Keychain: derivation, access to key material, locking *)

Lemma root_parent (k : Keychain.t) :
  Keychain.parent_ (Keychain.root k) = None.
Proof.
  revert k. fix IH 1. intros k.
  destruct k as [n d pf cn pk c ccs csalt p pcs psalt [par |] path h]; simpl.
  - apply IH.
  - reflexivity.
Qed.

Lemma root_of_parentless (k : Keychain.t) :
  Keychain.parent_ k = None -> Keychain.root k = k.
Proof.
  destruct k as [n d pf cn pk c ccs csalt p pcs psalt [par |] path h]; simpl;
    [discriminate | reflexivity].
Qed.

(** X1.  [root()] returns a keychain without parent, a second [root()]
    returns the same keychain, and a keychain and its parent have the same
    root. *)
Theorem root_is_root (k : Keychain.t) :
  Keychain.parent_ (Keychain.root k) = None /\
  Keychain.root (Keychain.root k) = Keychain.root k /\
  (forall p, Keychain.parent_ k = Some p -> Keychain.root k = Keychain.root p).
Proof.
  split; [apply root_parent |].
  split; [apply root_of_parentless, root_parent |].
  intros p Hp.
  destruct k as [n d pf cn pk c ccs csalt pv pcs psalt par path h].
  simpl in Hp. subst par. reflexivity.
Qed.

(** The root of a sample child is the sample root it was derived from. *)
Lemma root_is_root_witness :
  Keychain.parent_ (Demo.get Demo.child1) = Some (Demo.get Demo.root1) /\
  Keychain.root (Demo.get Demo.child1) = Keychain.root (Demo.get Demo.root1).
Proof.
  assert (Hp : Keychain.parent_ (Demo.get Demo.child1)
               = Some (Demo.get Demo.root1)) by reflexivity.
  split; [exact Hp |].
  exact (proj2 (proj2 (root_is_root (Demo.get Demo.child1))) _ Hp).
Defined.

Section KeychainMore.
Context {hashlib : Hash} {hdkeys : HDKeys}.

(** X2.  A keychain [child(i, get_private)] hands back points to the
    keychain it was derived from, has that keychain's root, its derivation
    path extended by [i], no name and no stored ciphertext; derived without
    [get_private] it holds no private key, whatever its parent holds. *)
Theorem child_structure (k : Keychain.t) (i : Z) (get_private : bool)
    (c : Keychain.t) :
  Keychain.child k i get_private = Ok c ->
  Keychain.parent_ c = Some k /\
  Keychain.root c = Keychain.root k /\
  Keychain.derivation_path_ c = Keychain.derivation_path_ k ++ [i] /\
  Keychain.name_ c = "" /\
  Keychain.privkey_ciphertext_ c = [] /\
  Keychain.chain_code_ciphertext_ c = [] /\
  (get_private = false ->
   Keychain.privkey_ c = [] /\ Keychain.isPrivate c = false).
Proof.
  unfold Keychain.child. intros Hc.
  repeat destruct_if; try discriminate; injection Hc as <-; simpl;
    repeat split; congruence.
Qed.

(** X3.  Which accessors succeed depends only on what is in memory:
    [chain_code()], [getSigningPublicKey] need the chain code; [privkey()]
    needs the private key; [getSigningPrivateKey] needs both; [extkey] and
    [child] need the chain code and, with [get_private], the private key. *)
Theorem material_access (k : Keychain.t) (i : Z) (path : list Z)
    (get_private : bool) :
  is_ok (Keychain.chain_code k) = negb (empty (Keychain.chain_code_ k)) /\
  is_ok (Keychain.privkey k) = negb (empty (Keychain.privkey_ k)) /\
  is_ok (Keychain.getSigningPublicKey k i path)
    = negb (empty (Keychain.chain_code_ k)) /\
  is_ok (Keychain.getSigningPrivateKey k i path)
    = negb (empty (Keychain.privkey_ k))
      && negb (empty (Keychain.chain_code_ k)) /\
  is_ok (Keychain.extkey k get_private)
    = negb (empty (Keychain.chain_code_ k))
      && (negb get_private || negb (empty (Keychain.privkey_ k))) /\
  is_ok (Keychain.child k i get_private)
    = negb (empty (Keychain.chain_code_ k))
      && (negb get_private || negb (empty (Keychain.privkey_ k))).
Proof.
  unfold Keychain.chain_code, Keychain.privkey, Keychain.getSigningPublicKey,
    Keychain.getSigningPrivateKey, Keychain.extkey, Keychain.child,
    Keychain.isPrivate.
  destruct (Keychain.privkey_ k), (Keychain.privkey_ciphertext_ k),
    (Keychain.chain_code_ k), get_private; simpl; repeat split; reflexivity.
Qed.

(** X4.  After [lockAll()] the chain code reads as locked and every accessor
    of key material throws: [privkey()], [chain_code()], both signing key
    getters, [extkey] and [child], with or without [get_private]. *)
Theorem lockAll_blocks_access (k : Keychain.t) (i : Z) (path : list Z)
    (get_private : bool) :
  Keychain.isChainCodeLocked (Keychain.lockAll k) = true /\
  is_ok (Keychain.privkey (Keychain.lockAll k)) = false /\
  is_ok (Keychain.chain_code (Keychain.lockAll k)) = false /\
  is_ok (Keychain.getSigningPublicKey (Keychain.lockAll k) i path) = false /\
  is_ok (Keychain.getSigningPrivateKey (Keychain.lockAll k) i path) = false /\
  is_ok (Keychain.extkey (Keychain.lockAll k) get_private) = false /\
  is_ok (Keychain.child (Keychain.lockAll k) i get_private) = false.
Proof.
  unfold Keychain.chain_code, Keychain.privkey, Keychain.getSigningPublicKey,
    Keychain.getSigningPrivateKey, Keychain.extkey, Keychain.child,
    Keychain.isPrivate, Keychain.isChainCodeLocked, Keychain.lockAll,
    Keychain.lockPrivateKey, Keychain.lockChainCode.
  simpl.
  destruct (Keychain.privkey_ciphertext_ k), get_private; simpl;
    repeat split; reflexivity.
Qed.

(** X5.  Locking twice is locking once, and the two locks commute.
    Unlocking what is in memory changes nothing, and unlocking twice, with
    any keys, is unlocking once. *)
Theorem lock_unlock_idempotent (k : Keychain.t) (key1 key2 : secure_bytes_t) :
  Keychain.lockAll (Keychain.lockAll k) = Keychain.lockAll k /\
  Keychain.lockPrivateKey (Keychain.lockChainCode k)
    = Keychain.lockChainCode (Keychain.lockPrivateKey k) /\
  (Keychain.privkey_ k <> [] -> Keychain.unlockPrivateKey k key1 = Ok k) /\
  (Keychain.chain_code_ k <> [] -> Keychain.unlockChainCode k key1 = k) /\
  (k' <- Keychain.unlockPrivateKey k key1 ;; Keychain.unlockPrivateKey k' key2)
    = Keychain.unlockPrivateKey k key1 /\
  Keychain.unlockChainCode (Keychain.unlockChainCode k key1) key2
    = Keychain.unlockChainCode k key1.
Proof.
  unfold Keychain.unlockPrivateKey, Keychain.unlockChainCode,
    Keychain.isPrivate.
  destruct k as [n d pf cn pk c ccs csalt p pcs psalt par path h]. simpl.
  split; [reflexivity |]. split; [reflexivity |].
  split; [destruct p; [congruence | reflexivity] |].
  split; [destruct c; [congruence | reflexivity] |].
  split.
  - destruct p, pcs; reflexivity.
  - destruct c, ccs; reflexivity.
Qed.

(** X6.  The constructor from entropy succeeds exactly when the name is
    valid (not empty, not starting with '@') and the master key and master
    chain code of the seed are not empty.  The keychain it builds is a root
    with the given name and an empty derivation path, and it is unlocked:
    [privkey()] and [chain_code()] return the master key and chain code. *)
Theorem Keychain_new_spec (name : string) (entropy lock_key : secure_bytes_t)
    (salt : bytes_t) :
  is_ok (Keychain.new name entropy lock_key salt)
    = negb (invalid_name name)
      && negb (empty (hd_key (hd_master entropy)))
      && negb (empty (hd_chain_code (hd_master entropy))) /\
  forall k,
    Keychain.new name entropy lock_key salt = Ok k ->
    Keychain.name_ k = name /\
    Keychain.parent_ k = None /\
    Keychain.root k = k /\
    Keychain.derivation_path_ k = [] /\
    Keychain.pubkey_ k = hd_pubkey (hd_master entropy) /\
    Keychain.privkey k = Ok (hd_key (hd_master entropy)) /\
    Keychain.chain_code k = Ok (hd_chain_code (hd_master entropy)).
Proof.
  unfold Keychain.new, Keychain.setPrivateKeyLockKey,
    Keychain.setChainCodeLockKey, Keychain.privkey, Keychain.chain_code,
    Keychain.isPrivate.
  destruct (invalid_name name); simpl; [split; [reflexivity | discriminate] |].
  destruct (hd_key (hd_master entropy)) as [| b key] eqn:Ek; simpl;
    [split; [reflexivity | discriminate] |].
  destruct (hd_chain_code (hd_master entropy)) as [| b' cc] eqn:Ec; simpl;
    [split; [reflexivity | discriminate] |].
  split; [reflexivity |].
  intros k [= <-]. simpl. repeat split; reflexivity.
Qed.
End KeychainMore.

(** The private child number 7 of a sample root. *)
Lemma child_structure_witness :
  @Keychain.child Demo.hash Demo.hdkeys (Demo.get Demo.root1) 7 true
    = Ok (Demo.get Demo.child1) /\
  Keychain.derivation_path_ (Demo.get Demo.child1)
    = Keychain.derivation_path_ (Demo.get Demo.root1) ++ [7].
Proof.
  assert (Hc : @Keychain.child Demo.hash Demo.hdkeys (Demo.get Demo.root1) 7
                 true = Ok (Demo.get Demo.child1)) by reflexivity.
  split; [exact Hc |].
  exact (proj1 (proj2 (proj2 (@child_structure Demo.hash Demo.hdkeys _ _ _ _
                                Hc)))).
Defined.

(** Unlocking a sample root, which is unlocked. *)
Lemma lock_unlock_idempotent_witness :
  Keychain.privkey_ (Demo.get Demo.root1) <> [] /\
  Keychain.unlockPrivateKey (Demo.get Demo.root1) [x01]
    = Ok (Demo.get Demo.root1).
Proof.
  assert (Hp : Keychain.privkey_ (Demo.get Demo.root1) <> [])
    by (vm_compute; discriminate).
  split; [exact Hp |].
  exact (proj1 (proj2 (proj2 (lock_unlock_idempotent (Demo.get Demo.root1)
                                [x01] [])))
           Hp).
Defined.

(** A sample root is what its constructor promises. *)
Lemma Keychain_new_spec_witness :
  Demo.root1 = Ok (Demo.get Demo.root1) /\
  Keychain.name_ (Demo.get Demo.root1) = "alice".
Proof.
  assert (Hr : @Keychain.new Demo.hash Demo.hdkeys "alice" [x11; x22] [] []
               = Ok (Demo.get Demo.root1)) by reflexivity.
  split; [exact Hr |].
  exact (proj1 (proj2 (@Keychain_new_spec Demo.hash Demo.hdkeys "alice"
                         [x11; x22] [] []) _ Hr)).
Defined.

(** ** Account: adding bins *)

Lemma Zseq_length (first : Z) (count : nat) :
  List.length (Zseq first count) = count.
Proof.
  revert first. induction count as [| n IH]; intros first; simpl;
    [reflexivity | now rewrite IH].
Qed.

Lemma Zseq_snoc (first : Z) (count : nat) :
  Zseq first count ++ [first + Z.of_nat count] = Zseq first (S count).
Proof.
  revert first. induction count as [| n IH]; intros first.
  - simpl. now rewrite Z.add_0_r.
  - change (Zseq first (S n)) with (first :: Zseq (first + 1) n).
    change (Zseq first (S (S n))) with (first :: Zseq (first + 1) (S n)).
    rewrite <- IH. simpl app. do 3 f_equal. lia.
Qed.

Lemma addBin_inv (a : Account.t) (name : string) (a' : Account.t)
    (bin : AccountBin.t) :
  addBin a name = Ok (a', bin) ->
  a' = Account.mk (Account.name_ a) (Account.minsigs_ a)
         (Account.keychains_ a) (Account.unused_pool_size_ a)
         (Account.time_created_ a)
         (Account.bins_ a
          ++ [wrap32 (Z.of_nat (List.length (Account.bins_ a)) + 1)]) /\
  bin = AccountBin.new a'
          (wrap32 (Z.of_nat (List.length (Account.bins_ a)) + 1)) name.
Proof.
  unfold addBin. destruct (invalid_name name); [discriminate |].
  intros [= <- <-]. split; reflexivity.
Qed.

Lemma addBins_from (a : Account.t) (names : list string) (n : nat)
    (a' : Account.t) (bins : list AccountBin.t) :
  Account.bins_ a = Zseq 1 n ->
  Z.of_nat (n + List.length names) < 2 ^ 32 ->
  addBins a names = Ok (a', bins) ->
  Account.bins_ a' = Zseq 1 (n + List.length names) /\
  map AccountBin.index_ bins = Zseq (1 + Z.of_nat n) (List.length names) /\
  map AccountBin.name_ bins = names /\
  Account.name_ a' = Account.name_ a /\
  Account.minsigs_ a' = Account.minsigs_ a /\
  Account.keychains_ a' = Account.keychains_ a /\
  Forall (fun bin => AccountBin.script_count_ bin = 0 /\
                     AccountBin.keychains_ bin = []) bins.
Proof.
  revert a n a' bins.
  induction names as [| name rest IH]; intros a n a' bins Hb Hn Ha.
  - injection Ha as <- <-. rewrite Nat.add_0_r. repeat split; auto.
  - cbn [addBins] in Ha.
    apply bind_Ok_inv in Ha as ([a1 b1] & Hab & Ha).
    apply bind_Ok_inv in Ha as ([a2 bs] & Hrest & Ha).
    injection Ha as <- <-. cbn [fst snd] in *.
    apply addBin_inv in Hab as [Ha1 Hb1].
    rewrite Hb, Zseq_length in Ha1, Hb1.
    assert (Hw : wrap32 (Z.of_nat n + 1) = 1 + Z.of_nat n).
    { unfold wrap32. rewrite Z.mod_small; cbn [List.length] in Hn; lia. }
    rewrite Hw, Zseq_snoc in Ha1. rewrite Hw in Hb1.
    assert (Hb' : Account.bins_ a1 = Zseq 1 (S n)) by (now subst a1).
    assert (Hn' : Z.of_nat (S n + List.length rest) < 2 ^ 32)
      by (cbn [List.length] in Hn; lia).
    destruct (IH a1 (S n) a2 bs Hb' Hn' Hrest)
      as (H1 & H2 & H3 & H4 & H5 & H6 & H7).
    replace (n + List.length (name :: rest))%nat
      with (S n + List.length rest)%nat by (cbn [List.length]; lia).
    split; [exact H1 |].
    split.
    { cbn [map List.length Zseq]. rewrite H2. f_equal.
      - now subst b1.
      - f_equal. lia. }
    split; [cbn [map]; rewrite H3; now subst b1 |].
    split; [rewrite H4; now subst a1 |].
    split; [rewrite H5; now subst a1 |].
    split; [rewrite H6; now subst a1 |].
    constructor; [subst b1; split; reflexivity | exact H7].
Qed.

(** X7.  A run of [addBin] calls fails exactly when one of the names is
    empty or starts with '@'.  On an account without bins, fewer than 2^32
    calls number the bins 1, 2, 3, ... in the order of the calls; every new
    bin has its name, script count 0 and no keychains loaded, and the name,
    minsigs and keychains of the account stay as they were. *)
Theorem addBins_spec (a : Account.t) (names : list string) :
  is_ok (addBins a names) = forallb (fun name => negb (invalid_name name)) names
  /\
  forall a' bins,
    Account.bins_ a = [] ->
    Z.of_nat (List.length names) < 2 ^ 32 ->
    addBins a names = Ok (a', bins) ->
    Account.bins_ a' = Zseq 1 (List.length names) /\
    map AccountBin.index_ bins = Zseq 1 (List.length names) /\
    map AccountBin.name_ bins = names /\
    Account.name_ a' = Account.name_ a /\
    Account.minsigs_ a' = Account.minsigs_ a /\
    Account.keychains_ a' = Account.keychains_ a /\
    Forall (fun bin => AccountBin.script_count_ bin = 0 /\
                       AccountBin.keychains_ bin = []) bins.
Proof.
  split.
  - revert a. induction names as [| name rest IH]; intros a; simpl;
      [reflexivity |].
    unfold addBin at 1. destruct (invalid_name name); simpl; [reflexivity |].
    match goal with
    | |- context [addBins ?acc rest] =>
        rewrite <- (IH acc); destruct (addBins acc rest)
    end; reflexivity.
  - intros a' bins Hb Hn Ha.
    exact (addBins_from a names 0 a' bins Hb Hn Ha).
Qed.

(** The two bins of the sample account. *)
Lemma addBins_spec_witness :
  Account.bins_ (Account.mk "savings" 2 DemoBins.keychains123 25 0 []) = [] /\
  Z.of_nat (List.length ["change"; "default"]) < 2 ^ 32 /\
  addBins (Account.mk "savings" 2 DemoBins.keychains123 25 0 [])
    ["change"; "default"]
  = Ok (AccountBin.account_ DemoBins.bin123,
        [AccountBin.new
           (Account.mk "savings" 2 DemoBins.keychains123 25 0 [1]) 1 "change";
         DemoBins.bin123]) /\
  Account.bins_ (AccountBin.account_ DemoBins.bin123) = [1; 2].
Proof.
  assert (Ha : addBins (Account.mk "savings" 2 DemoBins.keychains123 25 0 [])
                 ["change"; "default"]
               = Ok (AccountBin.account_ DemoBins.bin123,
                     [AccountBin.new
                        (Account.mk "savings" 2 DemoBins.keychains123 25 0 [1])
                        1 "change"; DemoBins.bin123])) by reflexivity.
  split; [reflexivity |]. split; [reflexivity |]. split; [exact Ha |].
  exact (proj1 (proj2 (addBins_spec
                         (Account.mk "savings" 2 DemoBins.keychains123 25 0 [])
                         ["change"; "default"])
                  _ _ eq_refl eq_refl Ha)).
Defined.

(** ** AccountBin: a locked keychain among the account's keychains *)

Section LoadLocked.
Context {hashlib : Hash} {hdkeys : HDKeys}.

Lemma load_loop_locked (pre : list Keychain.t) (k : Keychain.t)
    (post : list Keychain.t) (index : Z) (loaded children : KeychainSet) :
  Keychain.chain_code_ k = [] ->
  mapM (fun kc => Keychain.child kc index false) pre = Ok children ->
  AccountBin.load_loop (pre ++ k :: post) index loaded
  = (loaded ++ children, Throw "Chain code is locked.").
Proof.
  intros Hk. revert loaded children.
  induction pre as [| p pre IH]; intros loaded children; simpl.
  - intros [= <-]. unfold Keychain.child. simpl. rewrite Hk. simpl.
    now rewrite app_nil_r.
  - destruct (Keychain.child p index false) as [c |]; simpl; [| discriminate].
    destruct (mapM (fun kc => Keychain.child kc index false) pre) as [cs |]
      eqn:Em; simpl; [| discriminate].
    intros [= <-]. rewrite (IH (loaded ++ [c]) cs eq_refl), <- app_assoc.
    reflexivity.
Qed.

(** X8.  When the chain code of one of the account's keychains is locked,
    [loadKeychains()] on an empty cache throws "Chain code is locked." and
    leaves in the cache the children of the keychains enumerated before the
    locked one.  If there are any, the next call returns false and keeps
    that partial set. *)
Theorem loadKeychains_locked_keychain (bin : AccountBin.t)
    (pre : list Keychain.t) (k : Keychain.t) (post : list Keychain.t)
    (children : KeychainSet) :
  AccountBin.keychains_ bin = [] ->
  Account.keychains_ (AccountBin.account_ bin) = pre ++ k :: post ->
  Keychain.chain_code_ k = [] ->
  mapM (fun kc => Keychain.child kc (AccountBin.index_ bin) false) pre
    = Ok children ->
  AccountBin.loadKeychains bin
    = (AccountBin.set_keychains bin children, Throw "Chain code is locked.") /\
  (children <> [] ->
   AccountBin.loadKeychains (AccountBin.set_keychains bin children)
   = (AccountBin.set_keychains bin children, Ok false)).
Proof.
  intros He Ha Hk Hm. split.
  - unfold AccountBin.loadKeychains. rewrite He, Ha. simpl.
    rewrite (load_loop_locked pre k post _ [] children Hk Hm). reflexivity.
  - intros Hc. apply loadKeychains_loaded. exact Hc.
Qed.
End LoadLocked.

(** The bin of an account whose second keychain is locked. *)
Lemma loadKeychains_locked_keychain_witness :
  AccountBin.keychains_ DemoMore.bin_1_locked_2 = [] /\
  Keychain.chain_code_ DemoMore.locked_root = [] /\
  snd (DemoBins.load DemoMore.bin_1_locked_2) = Throw "Chain code is locked." /\
  List.length (AccountBin.keychains_ (fst (DemoBins.load DemoMore.bin_1_locked_2)))
    = 1%nat.
Proof.
  split; [reflexivity |]. split; [reflexivity |].
  assert (Hm : mapM (fun kc => @Keychain.child Demo.hash Demo.hdkeys kc
                                 (AccountBin.index_ DemoMore.bin_1_locked_2)
                                 false)
                 [Demo.get Demo.root1]
               = Ok [Demo.get (@Keychain.child Demo.hash Demo.hdkeys
                                 (Demo.get Demo.root1) 2 false)])
    by reflexivity.
  unfold DemoBins.load.
  rewrite (proj1 (@loadKeychains_locked_keychain Demo.hash Demo.hdkeys
                    DemoMore.bin_1_locked_2 [Demo.get Demo.root1]
                    DemoMore.locked_root [Demo.get Demo.root2] _
                    eq_refl eq_refl eq_refl Hm)).
  split; reflexivity.
Defined.

(** ** SigningScript: what a new script holds *)

Lemma mapM_Forall2 {A B : Type} (f : A -> result B) (l : list A)
    (r : list B) :
  mapM f l = Ok r -> Forall2 (fun x y => f x = Ok y) l r.
Proof.
  revert r. induction l as [| x l IH]; intros r; simpl.
  - intros [= <-]. constructor.
  - destruct (f x) as [y |] eqn:Ex; simpl; [| discriminate].
    destruct (mapM f l) as [ys |]; simpl; [| discriminate].
    intros [= <-]. constructor; auto.
Qed.

Lemma Forall2_compose {A B C : Type} (R : A -> B -> Prop) (S : B -> C -> Prop)
    (l1 : list A) (l2 : list B) (l3 : list C) :
  Forall2 R l1 l2 -> Forall2 S l2 l3 ->
  Forall2 (fun x z => exists y, R x y /\ S y z) l1 l3.
Proof.
  intros H12. revert l3. induction H12 as [| x y l1 l2 Hxy _ IH];
    intros l3 H23; inversion H23; subst; constructor; eauto.
Qed.

Lemma Forall2_flip {A B : Type} (R : A -> B -> Prop) (l1 : list A)
    (l2 : list B) :
  Forall2 R l1 l2 -> Forall2 (fun y x => R x y) l2 l1.
Proof. induction 1; constructor; auto. Qed.

Section ScriptKeys.
Context {hashlib : Hash} {hdkeys : HDKeys} {scriptlib : ScriptLib}.

(** [loadKeychains] writes the cache and nothing else. *)
Lemma loadKeychains_frame (bin : AccountBin.t) :
  fst (AccountBin.loadKeychains bin)
  = AccountBin.set_keychains bin
      (AccountBin.keychains_ (fst (AccountBin.loadKeychains bin))).
Proof.
  unfold AccountBin.loadKeychains.
  destruct (negb (empty (AccountBin.keychains_ bin))); simpl.
  - destruct bin; reflexivity.
  - destruct (AccountBin.load_loop _ _ _); reflexivity.
Qed.

(** The key built from the public child number [i] of a keychain. *)
Lemma key_of_child (k : Keychain.t) (i index : Z) (c : Keychain.t)
    (key : Key.t) :
  Keychain.child k i false = Ok c ->
  Key.new c index = Ok key ->
  key_of_keychain i index k key.
Proof.
  intros Hc Hk.
  assert (Hr : Keychain.root c = Keychain.root k /\
               Keychain.derivation_path_ c = Keychain.derivation_path_ k ++ [i]).
  { unfold Keychain.child in Hc.
    repeat destruct_if; try discriminate; injection Hc as <-; simpl;
      split; congruence. }
  destruct Hr as (Hr & Hp).
  unfold Key.new in Hk.
  destruct (Keychain.getSigningPublicKey c index []); simpl in Hk;
    [| discriminate].
  injection Hk as <-. unfold key_of_keychain. simpl.
  rewrite Hr, Hp. auto.
Qed.

(** X9.  The keys of a signing script built on a bin whose cache was empty
    are one key for each keychain of the account, in some order: the key of
    keychain [k] has the root of [k] as its root keychain, the path of [k]
    extended by the bin's index as its derivation path, the script's index as
    its index, and is private exactly when that root is.  The script points
    to the bin with the children cached. *)
Theorem signing_script_keys (bin : AccountBin.t) (index : Z) (label : string)
    (status : SigningScript.status_t) (bin' : AccountBin.t)
    (s : SigningScript.t) :
  AccountBin.keychains_ bin = [] ->
  SigningScript.new bin index label status = (bin', Ok s) ->
  (exists keychains,
     Permutation (Account.keychains_ (AccountBin.account_ bin)) keychains /\
     Forall2 (key_of_keychain (AccountBin.index_ bin) index) keychains
       (SigningScript.keys_ s)) /\
  List.length (SigningScript.keys_ s)
    = List.length (Account.keychains_ (AccountBin.account_ bin)) /\
  SigningScript.account_bin_ s = bin' /\
  List.length (AccountBin.keychains_ bin')
    = List.length (Account.keychains_ (AccountBin.account_ bin)).
Proof.
  intros He Hnew. unfold SigningScript.new, AccountBin.loadKeychains in Hnew.
  rewrite He in Hnew. simpl in Hnew.
  pose proof (load_loop_mapM (Account.keychains_ (AccountBin.account_ bin))
                (AccountBin.index_ bin) []) as Hloop.
  destruct (mapM (fun k => Keychain.child k (AccountBin.index_ bin) false)
              (Account.keychains_ (AccountBin.account_ bin)))
    as [children | m] eqn:Hm.
  2:{ destruct (AccountBin.load_loop _ _ _) as [ks r]. simpl in Hloop.
      subst r. simpl in Hnew. discriminate. }
  rewrite Hloop in Hnew. simpl in Hnew.
  injection Hnew as Hbin Hbuild. subst bin'.
  unfold SigningScript.build in Hbuild. simpl in Hbuild.
  destruct (mapM (fun keychain => Key.new keychain index) children)
    as [keys | m] eqn:Hk; simpl in Hbuild; [| discriminate].
  destruct (Script_multisig _ _) as [script | m]; simpl in Hbuild;
    [| discriminate].
  injection Hbuild as <-. simpl.
  apply mapM_Forall2 in Hm, Hk.
  assert (H2 : Forall2 (key_of_keychain (AccountBin.index_ bin) index)
                 (Account.keychains_ (AccountBin.account_ bin)) keys).
  { eapply Forall2_impl; [| exact (Forall2_compose _ _ _ _ _ Hm Hk)].
    intros k key (c & Hc & Hkey). eapply key_of_child; eassumption. }
  pose proof (std_sort_permutation Key.pubkey_ keys) as Hp.
  change (std_sort (by_key Key.pubkey_) keys) with (std_sort Key.ltb keys) in Hp.
  split; [| split; [| split]].
  - destruct (Permutation_Forall2 Hp (Forall2_flip _ _ _ H2))
      as (keychains & Hperm & Hf).
    exists keychains. split; [exact Hperm |].
    exact (Forall2_flip _ _ _ Hf).
  - rewrite <- (Permutation_length Hp). symmetry.
    eapply Forall2_length. exact H2.
  - reflexivity.
  - symmetry. eapply Forall2_length. exact Hm.
Qed.

(** X10.  [newSigningScript(label)] gives the new script the bin's script
    count as its index, status UNUSED and the label, and leaves the bin with
    the count one higher (modulo 2^32), also when the constructor throws;
    index, name and account of the bin stay as they were.  A second call
    gives its script the next index. *)
Theorem newSigningScript_counter (bin : AccountBin.t) (label : string) :
  AccountBin.script_count_ (fst (newSigningScript bin label))
    = wrap32 (AccountBin.script_count_ bin + 1) /\
  AccountBin.index_ (fst (newSigningScript bin label))
    = AccountBin.index_ bin /\
  AccountBin.name_ (fst (newSigningScript bin label)) = AccountBin.name_ bin /\
  AccountBin.account_ (fst (newSigningScript bin label))
    = AccountBin.account_ bin /\
  (forall s,
     snd (newSigningScript bin label) = Ok s ->
     SigningScript.index_ s = AccountBin.script_count_ bin /\
     SigningScript.status_ s = SigningScript.UNUSED /\
     SigningScript.label_ s = label /\
     SigningScript.account_ s = AccountBin.account_ bin /\
     SigningScript.account_bin_ s = fst (newSigningScript bin label)) /\
  (forall label2 s2,
     snd (newSigningScript (fst (newSigningScript bin label)) label2) = Ok s2 ->
     SigningScript.index_ s2 = wrap32 (AccountBin.script_count_ bin + 1)).
Proof.
  assert (Hone : forall b l,
            AccountBin.script_count_ (fst (newSigningScript b l))
              = wrap32 (AccountBin.script_count_ b + 1) /\
            AccountBin.index_ (fst (newSigningScript b l))
              = AccountBin.index_ b /\
            AccountBin.name_ (fst (newSigningScript b l))
              = AccountBin.name_ b /\
            AccountBin.account_ (fst (newSigningScript b l))
              = AccountBin.account_ b /\
            (forall s,
               snd (newSigningScript b l) = Ok s ->
               SigningScript.index_ s = AccountBin.script_count_ b /\
               SigningScript.status_ s = SigningScript.UNUSED /\
               SigningScript.label_ s = l /\
               SigningScript.account_ s = AccountBin.account_ b /\
               SigningScript.account_bin_ s = fst (newSigningScript b l))).
  { intros b l. unfold newSigningScript, SigningScript.new.
    match goal with
    | |- context [AccountBin.loadKeychains ?b1] =>
        pose proof (loadKeychains_frame b1) as Hf;
          destruct (AccountBin.loadKeychains b1) as [b2 r]
    end.
    simpl in Hf. simpl. rewrite Hf. simpl.
    repeat split; try reflexivity.
    all: destruct r as [v | m]; simpl in *; try discriminate.
    all: unfold SigningScript.build in *; simpl in *.
    all: destruct (mapM _ _); simpl in *; try discriminate.
    all: destruct (Script_multisig _ _); simpl in *; try discriminate.
    all: match goal with H : Ok _ = Ok _ |- _ => injection H as <- end.
    all: reflexivity. }
  destruct (Hone bin label) as (H1 & H2 & H3 & H4 & H5).
  repeat split; try assumption; try (apply H5; assumption).
  intros label2 s2 Hs2.
  destruct (Hone (fst (newSigningScript bin label)) label2)
    as (_ & _ & _ & _ & H6).
  rewrite (proj1 (H6 s2 Hs2)). exact H1.
Qed.
End ScriptKeys.

(** The script built on the bin of the sample account has three keys. *)
Lemma signing_script_keys_witness :
  AccountBin.keychains_ DemoBins.bin123 = [] /\
  DemoBins.new_script DemoBins.bin123 0
    = (fst (DemoBins.new_script DemoBins.bin123 0), Ok DemoMore.script0) /\
  List.length (SigningScript.keys_ DemoMore.script0)
    = List.length (Account.keychains_ (AccountBin.account_ DemoBins.bin123)).
Proof.
  assert (Hn : @SigningScript.new Demo.hash Demo.hdkeys Demo.scriptlib
                 DemoBins.bin123 0 "" SigningScript.UNUSED
               = (fst (DemoBins.new_script DemoBins.bin123 0),
                  Ok DemoMore.script0)) by (vm_compute; reflexivity).
  split; [reflexivity |]. split; [exact Hn |].
  exact (proj1 (proj2 (@signing_script_keys Demo.hash Demo.hdkeys
                         Demo.scriptlib DemoBins.bin123 0 ""
                         SigningScript.UNUSED _ _ eq_refl Hn))).
Defined.

(** The first script of the sample bin has index 0. *)
Lemma newSigningScript_counter_witness :
  snd (DemoMore.new_signing_script DemoBins.bin123 "first")
    = Ok DemoMore.script1 /\
  SigningScript.index_ DemoMore.script1
    = AccountBin.script_count_ DemoBins.bin123.
Proof.
  assert (Hs : snd (@newSigningScript Demo.hash Demo.hdkeys Demo.scriptlib
                      DemoBins.bin123 "first") = Ok DemoMore.script1)
    by (vm_compute; reflexivity).
  split; [exact Hs |].
  exact (proj1 (proj1 (proj2 (proj2 (proj2 (proj2
           (@newSigningScript_counter Demo.hash Demo.hdkeys Demo.scriptlib
              DemoBins.bin123 "first"))))) _ Hs)).
Defined.

(** ** AccountInfo: the keychain names *)

Lemma list_byte_of_string_inj (a b : string) :
  list_byte_of_string a = list_byte_of_string b -> a = b.
Proof.
  intros Hab. rewrite <- (string_of_list_byte_of_string a),
    <- (string_of_list_byte_of_string b). now rewrite Hab.
Qed.

Lemma map_list_byte_of_string_inj (l1 l2 : list string) :
  map list_byte_of_string l1 = map list_byte_of_string l2 -> l1 = l2.
Proof.
  revert l2. induction l1 as [| a l1 IH]; intros [| b l2]; simpl;
    try discriminate; [reflexivity |].
  intros [= Hab Hl]. f_equal; [now apply list_byte_of_string_inj | now apply IH].
Qed.

(** X11.  The keychain names of [accountInfo()] are the names of the
    account's keychains in ascending order, so they are the same for every
    order in which the keychain set is enumerated; the other entries are the
    account's fields and the names of its bins in the order of the bins. *)
Theorem accountInfo_keychain_names (id1 id2 : Z) (a1 a2 : Account.t)
    (bins1 bins2 : list AccountBin.t) :
  Permutation (Account.keychains_ a1) (Account.keychains_ a2) ->
  AccountInfo.keychain_names_ (accountInfo id1 a1 bins1)
    = AccountInfo.keychain_names_ (accountInfo id2 a2 bins2) /\
  Permutation (map Keychain.name_ (Account.keychains_ a1))
    (AccountInfo.keychain_names_ (accountInfo id1 a1 bins1)) /\
  StronglySorted (fun x y => string_ltb y x = false)
    (AccountInfo.keychain_names_ (accountInfo id1 a1 bins1)) /\
  AccountInfo.bin_names_ (accountInfo id1 a1 bins1)
    = map AccountBin.name_ bins1 /\
  AccountInfo.minsigs_ (accountInfo id1 a1 bins1) = Account.minsigs_ a1 /\
  AccountInfo.name_ (accountInfo id1 a1 bins1) = Account.name_ a1.
Proof.
  intros Hp. unfold accountInfo, AccountInfo.new. simpl.
  change (std_sort string_ltb) with (std_sort (by_key list_byte_of_string)).
  split; [| split; [| split]]; auto.
  - apply map_list_byte_of_string_inj, std_sort_canonical.
    now apply Permutation_map.
  - apply std_sort_permutation.
  - pose proof (std_sort_sorted list_byte_of_string
                  (map Keychain.name_ (Account.keychains_ a1))) as Hs.
    remember (std_sort (by_key list_byte_of_string)
                (map Keychain.name_ (Account.keychains_ a1))) as l eqn:El.
    clear El. induction l as [| x l IH]; [constructor |].
    simpl in Hs. apply StronglySorted_inv in Hs as [Hs Hx].
    constructor; [now apply IH |].
    rewrite Forall_forall in Hx |- *. intros y Hy.
    apply Hx, in_map, Hy.
Qed.

(** The sample account, its keychains enumerated in two orders. *)
Lemma accountInfo_keychain_names_witness :
  Permutation (Account.keychains_ (AccountBin.account_ DemoBins.bin123))
    (Account.keychains_ (AccountBin.account_ DemoBins.bin312)) /\
  AccountInfo.keychain_names_
    (accountInfo 1 (AccountBin.account_ DemoBins.bin123) [])
  = AccountInfo.keychain_names_
      (accountInfo 1 (AccountBin.account_ DemoBins.bin312) []).
Proof.
  assert (Ha : Permutation
                 (Account.keychains_ (AccountBin.account_ DemoBins.bin123))
                 (Account.keychains_ (AccountBin.account_ DemoBins.bin312))).
  { change (Permutation DemoBins.keychains123 DemoBins.keychains312).
    unfold DemoBins.keychains123, DemoBins.keychains312.
    eapply perm_trans; [apply perm_skip, perm_swap | apply perm_swap]. }
  split; [exact Ha |].
  exact (proj1 (accountInfo_keychain_names 1 1 _ _ [] [] Ha)).
Defined.

(** ** SigningScript: flags and status value *)

Lemma land_pow2 (status : Z) (n : Z) :
  0 <= n ->
  Z.land status (2 ^ n) = if Z.testbit status n then 2 ^ n else 0.
Proof.
  intros Hn. apply Z.bits_inj'. intros m Hm.
  rewrite Z.land_spec, Z.pow2_bits_eqb by exact Hn.
  destruct (Z.eqb_spec n m) as [<- | Hne].
  - destruct (Z.testbit status n); simpl.
    + rewrite Z.pow2_bits_eqb by exact Hn. now rewrite Z.eqb_refl.
    + now rewrite Z.bits_0.
  - rewrite andb_false_r. destruct (Z.testbit status n).
    + rewrite Z.pow2_bits_eqb by exact Hn. symmetry. now apply Z.eqb_neq.
    + now rewrite Z.bits_0.
Qed.

Lemma has_flag_bit (status : Z) (flag : SigningScript.status_t) (n : Z) :
  0 <= n ->
  SigningScript.status_value flag = 2 ^ n ->
  SigningScript.has_flag status flag = Z.testbit status n.
Proof.
  intros Hn Hv. unfold SigningScript.has_flag. rewrite Hv, land_pow2 by exact Hn.
  destruct (Z.testbit status n); [| reflexivity].
  apply negb_true_iff, Z.eqb_neq. apply Z.pow_nonzero; lia.
Qed.

(** X12.  Putting the flags [getStatusFlags] returns together again gives
    the status value with everything but the five flag bits cleared: decoding
    loses exactly the bits outside ALL = 31. *)
Theorem getStatusFlags_value (status : Z) :
  flags_value (SigningScript.getStatusFlags status) = Z.land status 31.
Proof.
  replace (Z.land status 31)
    with (Z.lor (Z.land status (2 ^ 0))
            (Z.lor (Z.land status (2 ^ 1))
               (Z.lor (Z.land status (2 ^ 2))
                  (Z.lor (Z.land status (2 ^ 3)) (Z.land status (2 ^ 4))))))
    by (rewrite <- !Z.land_lor_distr_r; reflexivity).
  rewrite !land_pow2 by lia.
  unfold SigningScript.getStatusFlags.
  rewrite (has_flag_bit status SigningScript.UNUSED 0),
    (has_flag_bit status SigningScript.CHANGE 1),
    (has_flag_bit status SigningScript.PENDING 2),
    (has_flag_bit status SigningScript.RECEIVED 3),
    (has_flag_bit status SigningScript.CANCELED 4) by (lia || reflexivity).
  destruct (Z.testbit status 0), (Z.testbit status 1), (Z.testbit status 2),
    (Z.testbit status 3), (Z.testbit status 4); reflexivity.
Qed.

(** ** Keychain: copies *)

Section KeychainCopy.
Context {hashlib : Hash} {hdkeys : HDKeys}.

End KeychainCopy.


(** ** Transactions: what [set] stores *)

Section Stamp.
Context {A : Type} (set_txindex : A -> Z -> A).

Lemma write_fst (a : nat) (i : Z) (l : list (shared A)) :
  map fst (write set_txindex a i l) = map fst l.
Proof.
  unfold write. rewrite map_map. apply map_ext. intros e.
  destruct (Nat.eqb (fst e) a); reflexivity.
Qed.

Lemma stamp_loop_fst (pending : list nat) (i : Z) (l : list (shared A)) :
  map fst (stamp_loop set_txindex pending i l) = map fst l.
Proof.
  revert i l. induction pending as [| a rest IH]; intros i l; simpl;
    [reflexivity | now rewrite IH, write_fst].
Qed.

(** Stamping changes nothing that does not read the position. *)
Lemma stamp_loop_map {B : Type} (f : A -> B) (pending : list nat) (i : Z)
    (l : list (shared A)) :
  (forall x j, f (set_txindex x j) = f x) ->
  map (fun e => f (snd e)) (stamp_loop set_txindex pending i l)
  = map (fun e => f (snd e)) l.
Proof.
  intros Hf. revert i l. induction pending as [| a rest IH]; intros i l; simpl;
    [reflexivity |].
  rewrite IH. unfold write. rewrite map_map. apply map_ext. intros e.
  destruct (Nat.eqb (fst e) a); simpl; [apply Hf | reflexivity].
Qed.

Lemma stamp_map {B : Type} (f : A -> B) (l : list (shared A)) :
  (forall x j, f (set_txindex x j) = f x) ->
  map f (stamp set_txindex l) = map f (map snd l).
Proof.
  intros Hf. unfold stamp. rewrite !map_map.
  now apply stamp_loop_map.
Qed.

(** The loop in closed form: an entry whose address is still to come gets
    the last position at which it comes. *)
Lemma stamp_loop_last (pending : list nat) (i : Z) (l : list (shared A)) :
  (forall x j j', set_txindex (set_txindex x j) j' = set_txindex x j') ->
  stamp_loop set_txindex pending i l
  = map (fun e => match last_position (fst e) i pending with
                  | Some j => (fst e, set_txindex (snd e) j)
                  | None => e
                  end) l.
Proof.
  intros Hset. revert i l.
  induction pending as [| a rest IH]; intros i l; simpl.
  - symmetry. apply map_id.
  - rewrite IH. unfold write. rewrite map_map. apply map_ext. intros [b x].
    simpl. destruct (Nat.eqb b a) eqn:Eb; simpl.
    + destruct (last_position b (i + 1) rest); [now rewrite Hset | reflexivity].
    + destruct (last_position b (i + 1) rest); reflexivity.
Qed.
End Stamp.

Lemma last_position_absent (a : nat) (i : Z) (addresses : list nat) :
  ~ In a addresses -> last_position a i addresses = None.
Proof.
  revert i. induction addresses as [| b rest IH]; intros i Hn; simpl;
    [reflexivity |].
  rewrite IH by (intros Hin; apply Hn; now right).
  destruct (Nat.eqb_spec a b) as [-> | _]; [| reflexivity].
  exfalso. apply Hn. now left.
Qed.

Lemma last_position_present (a : nat) (i : Z) (addresses : list nat) :
  In a addresses -> exists j, last_position a i addresses = Some j.
Proof.
  revert i. induction addresses as [| b rest IH]; intros i Hin; simpl;
    [contradiction |].
  destruct (last_position a (i + 1) rest) as [j |] eqn:El; [eauto |].
  destruct (Nat.eqb_spec a b) as [_ | Hne]; [eauto |].
  destruct Hin as [-> | Hin]; [congruence |].
  destruct (IH (i + 1) Hin) as [j Hj]. congruence.
Qed.

(** Addresses that are all different are last listed where they are
    listed. *)
Lemma last_position_NoDup (i : Z) (addresses : list nat) :
  NoDup addresses ->
  map (fun a => last_position a i addresses) addresses
  = map Some (Zseq i (List.length addresses)).
Proof.
  intros Hd. revert i. induction Hd as [| a rest Ha Hd IH]; intros i;
    [reflexivity |].
  cbn [map List.length Zseq]. f_equal.
  - cbn [last_position]. rewrite (last_position_absent a (i + 1) rest Ha).
    now rewrite Nat.eqb_refl.
  - rewrite <- IH. apply map_ext_in. intros b Hb. cbn [last_position].
    destruct (last_position_present b (i + 1) rest Hb) as [j ->]. reflexivity.
Qed.

Lemma distinct_snd {A : Type} (l : list A) : map snd (distinct l) = l.
Proof.
  unfold distinct. generalize 0%nat.
  induction l as [| x l IH]; intros n; simpl; [reflexivity | now rewrite IH].
Qed.

Lemma distinct_fst {A : Type} (l : list A) :
  map fst (distinct l) = seq 0 (List.length l).
Proof.
  unfold distinct. generalize 0%nat.
  induction l as [| x l IH]; intros n; simpl; [reflexivity | now rewrite IH].
Qed.

(** The positions the objects of a vector carry after the loop. *)
Lemma stamp_txindex {A : Type} (set_txindex : A -> Z -> A) (txindex : A -> Z)
    (l : list (shared A)) :
  (forall x j, txindex (set_txindex x j) = wrap32 j) ->
  (forall x j j', set_txindex (set_txindex x j) j' = set_txindex x j') ->
  map txindex (stamp set_txindex l)
  = map (fun e => wrap32 (stamped_position l e)) l.
Proof.
  intros Hidx Hset. unfold stamp. rewrite (stamp_loop_last _ _ _ _ Hset).
  rewrite !map_map. apply map_ext_in. intros e He.
  unfold stamped_position.
  destruct (last_position_present (fst e) 0 (map fst l) (in_map fst l e He))
    as [j ->].
  simpl. apply Hidx.
Qed.

Lemma stamp_txindex_NoDup {A : Type} (set_txindex : A -> Z -> A)
    (txindex : A -> Z) (l : list (shared A)) :
  (forall x j, txindex (set_txindex x j) = wrap32 j) ->
  (forall x j j', set_txindex (set_txindex x j) j' = set_txindex x j') ->
  NoDup (map fst l) ->
  map txindex (stamp set_txindex l) = map wrap32 (Zseq 0 (List.length l)).
Proof.
  intros Hidx Hset Hd. rewrite (stamp_txindex _ _ _ Hidx Hset).
  pose proof (last_position_NoDup 0 (map fst l) Hd) as Hl.
  rewrite map_map, length_map in Hl.
  unfold stamped_position.
  rewrite <- (map_map (fun e => last_position (fst e) 0 (map fst l))
                (fun o => wrap32 match o with Some j => j | None => 0 end)).
  rewrite Hl, map_map. reflexivity.
Qed.

Lemma TxIn_set_txindex_twice (x : TxIn.t) (j j' : Z) :
  TxIn.set_txindex (TxIn.set_txindex x j) j' = TxIn.set_txindex x j'.
Proof. reflexivity. Qed.

Lemma TxOut_set_txindex_twice (x : TxOut.t) (j j' : Z) :
  TxOut.set_txindex (TxOut.set_txindex x j) j' = TxOut.set_txindex x j'.
Proof. reflexivity. Qed.

Section TxSet.
Context {hashlib : Hash} {scriptlib : ScriptLib} {coindata : CoinData}.

Lemma updateAll_toCoinClasses (tx : Tx.t) :
  Tx.toCoinClasses (Tx.updateAll tx) = Tx.toCoinClasses tx.
Proof.
  unfold Tx.updateAll, Tx.updateHash, Tx.updateUnsignedHash, Tx.updateStatus.
  destruct (0 <? Tx.missingSigCount tx)%N; simpl; [reflexivity |].
  destruct (Tx.status_neqb _ _); reflexivity.
Qed.

(** The three updates in one: the status, the unsigned hash and the hash
    they leave. *)
Lemma updateAll_spec (tx : Tx.t) :
  Tx.status_ (Tx.updateAll tx)
    = (if (0 <? Tx.missingSigCount tx)%N then Tx.UNSIGNED else Tx.status_ tx) /\
  Tx.unsigned_hash_ (Tx.updateAll tx)
    = getHashLittleEndian (Coin.clearScriptSigs (Tx.toCoinClasses tx)) /\
  Tx.hash_ (Tx.updateAll tx)
    = (if Tx.status_neqb (Tx.status_ (Tx.updateAll tx)) Tx.UNSIGNED
       then rev (sha256_2 (getSerialized (Tx.toCoinClasses tx)))
       else Tx.hash_ tx).
Proof.
  destruct tx as [h u v ins outs l ts st hf f bh bi].
  unfold Tx.updateAll, Tx.updateHash, Tx.updateUnsignedHash, Tx.updateStatus,
    Tx.raw.
  destruct (0 <? Tx.missingSigCount _)%N; simpl.
  - repeat split; reflexivity.
  - destruct (Tx.status_neqb st Tx.UNSIGNED) eqn:En; simpl; rewrite En;
      repeat split; reflexivity.
Qed.

(** What [set] builds before the three updates run. *)
Lemma set_shared_toCoinClasses (tx : Tx.t) (version : Z)
    (txins : list (shared TxIn.t)) (txouts : list (shared TxOut.t))
    (locktime timestamp : Z) (status : Tx.status_t) :
  Tx.toCoinClasses
    (Tx.set_shared tx version txins txouts locktime timestamp status)
  = coin_of_parts version (map snd txins) (map snd txouts) locktime.
Proof.
  unfold Tx.set_shared. rewrite updateAll_toCoinClasses.
  unfold Tx.toCoinClasses, coin_of_parts. simpl.
  rewrite (stamp_map TxIn.set_txindex TxIn.toCoinClasses) by reflexivity.
  rewrite (stamp_map TxOut.set_txindex TxOut.toCoinClasses) by reflexivity.
  reflexivity.
Qed.

Lemma set_toCoinClasses (tx : Tx.t) (version : Z) (txins : list TxIn.t)
    (txouts : list TxOut.t) (locktime timestamp : Z) (status : Tx.status_t) :
  Tx.toCoinClasses (Tx.set tx version txins txouts locktime timestamp status)
  = coin_of_parts version txins txouts locktime.
Proof.
  unfold Tx.set. rewrite set_shared_toCoinClasses, !distinct_snd. reflexivity.
Qed.

(** The fields the three updates leave alone. *)
Lemma updateAll_frame (tx : Tx.t) :
  Tx.txouts_ (Tx.updateAll tx) = Tx.txouts_ tx /\
  Tx.timestamp_ (Tx.updateAll tx) = Tx.timestamp_ tx /\
  Tx.have_fee_ (Tx.updateAll tx) = Tx.have_fee_ tx /\
  Tx.fee_ (Tx.updateAll tx) = Tx.fee_ tx /\
  Tx.blockheader_ (Tx.updateAll tx) = Tx.blockheader_ tx.
Proof.
  unfold Tx.updateAll, Tx.updateHash, Tx.updateUnsignedHash, Tx.updateStatus.
  destruct (0 <? Tx.missingSigCount tx)%N; simpl;
    try destruct (Tx.status_neqb _ _); repeat split; reflexivity.
Qed.

(** X14.  After [set(version, txins, txouts, locktime, timestamp, status)]
    the transaction converts to the [Coin::Transaction] of the arguments,
    inputs and outputs in the given order with their scripts; the timestamp
    is the argument, fee and block are untouched.  The positions are written
    through the pointers of the two vectors: every input and output carries
    the last position (from 0, modulo 2^32) at which its object is listed,
    which is its own position when the objects listed are all different. *)
Theorem set_stores_parts (tx : Tx.t) (version : Z)
    (txins : list (shared TxIn.t)) (txouts : list (shared TxOut.t))
    (locktime timestamp : Z) (status : Tx.status_t) :
  Tx.toCoinClasses
    (Tx.set_shared tx version txins txouts locktime timestamp status)
    = coin_of_parts version (map snd txins) (map snd txouts) locktime /\
  map TxIn.script_
    (Tx.txins_
       (Tx.set_shared tx version txins txouts locktime timestamp status))
    = map TxIn.script_ (map snd txins) /\
  Tx.timestamp_
    (Tx.set_shared tx version txins txouts locktime timestamp status)
    = timestamp /\
  Tx.have_fee_
    (Tx.set_shared tx version txins txouts locktime timestamp status)
    = Tx.have_fee_ tx /\
  Tx.fee_ (Tx.set_shared tx version txins txouts locktime timestamp status)
    = Tx.fee_ tx /\
  Tx.blockheader_
    (Tx.set_shared tx version txins txouts locktime timestamp status)
    = Tx.blockheader_ tx /\
  map TxIn.txindex_
    (Tx.txins_
       (Tx.set_shared tx version txins txouts locktime timestamp status))
    = map (fun e => wrap32 (stamped_position txins e)) txins /\
  map TxOut.txindex_
    (Tx.txouts_
       (Tx.set_shared tx version txins txouts locktime timestamp status))
    = map (fun e => wrap32 (stamped_position txouts e)) txouts /\
  (NoDup (map fst txins) ->
   map TxIn.txindex_
     (Tx.txins_
        (Tx.set_shared tx version txins txouts locktime timestamp status))
   = map wrap32 (Zseq 0 (List.length txins))) /\
  (NoDup (map fst txouts) ->
   map TxOut.txindex_
     (Tx.txouts_
        (Tx.set_shared tx version txins txouts locktime timestamp status))
   = map wrap32 (Zseq 0 (List.length txouts))).
Proof.
  split; [apply set_shared_toCoinClasses |].
  unfold Tx.set_shared.
  match goal with
  | |- context [Tx.updateAll ?t] =>
      destruct (updateAll_frame t) as (Ho & Ht & Hhf & Hf & Hb);
        rewrite (updateAll_txins t), Ho, Ht, Hhf, Hf, Hb
  end.
  simpl.
  split; [apply stamp_map; reflexivity |].
  do 4 (split; [reflexivity |]).
  split; [apply stamp_txindex; reflexivity |].
  split; [apply stamp_txindex; reflexivity |].
  split; intros Hd; apply stamp_txindex_NoDup; auto; reflexivity.
Qed.

(** X15.  After [set(...)] the status is UNSIGNED when an input still needs
    signatures and the requested status otherwise; the unsigned hash is the
    hash of the [Coin::Transaction] of the arguments with the input scripts
    cleared; and the hash is the reversed double hash of the serialised
    [Coin::Transaction] of the arguments when the status is not UNSIGNED,
    and what it was before when it is. *)
Theorem set_status_and_hashes (tx : Tx.t) (version : Z) (txins : list TxIn.t)
    (txouts : list TxOut.t) (locktime timestamp : Z) (status : Tx.status_t) :
  Tx.status_ (Tx.set tx version txins txouts locktime timestamp status)
    = (if (0 <? Tx.missingSigCount
                  (Tx.set tx version txins txouts locktime timestamp status))%N
       then Tx.UNSIGNED else status) /\
  Tx.unsigned_hash_ (Tx.set tx version txins txouts locktime timestamp status)
    = getHashLittleEndian
        (Coin.clearScriptSigs (coin_of_parts version txins txouts locktime)) /\
  Tx.hash_ (Tx.set tx version txins txouts locktime timestamp status)
    = (if Tx.status_neqb
            (Tx.status_
               (Tx.set tx version txins txouts locktime timestamp status))
            Tx.UNSIGNED
       then rev (sha256_2
                   (getSerialized
                      (coin_of_parts version txins txouts locktime)))
       else Tx.hash_ tx).
Proof.
  pose proof (set_toCoinClasses tx version txins txouts locktime timestamp
                status) as Hc.
  unfold Tx.set, Tx.set_shared in *.
  match goal with
  | |- context [Tx.updateAll ?t] => remember t as tx1 eqn:E1
  end.
  assert (Hs1 : Tx.status_ tx1 = status) by (now subst tx1).
  assert (Hh1 : Tx.hash_ tx1 = Tx.hash_ tx) by (now subst tx1).
  rewrite updateAll_toCoinClasses in Hc.
  clear E1.
  rewrite (missingSigCount_txins (Tx.updateAll tx1) tx1)
    by apply updateAll_txins.
  destruct (updateAll_spec tx1) as (H1 & H2 & H3).
  rewrite Hc in H2, H3. rewrite Hs1 in H1. rewrite Hh1 in H3.
  auto.
Qed.

Lemma set_status_same (tx : Tx.t) (status : Tx.status_t) :
  Tx.status_ tx = status -> Tx.set_status tx status = tx.
Proof. destruct tx. simpl. now intros ->. Qed.

Lemma set_unsigned_hash_same (tx : Tx.t) (unsigned_hash : bytes_t) :
  Tx.unsigned_hash_ tx = unsigned_hash ->
  Tx.set_unsigned_hash tx unsigned_hash = tx.
Proof. destruct tx. simpl. now intros ->. Qed.

Lemma set_hash_same (tx : Tx.t) (hash : bytes_t) :
  Tx.hash_ tx = hash -> Tx.set_hash tx hash = tx.
Proof. destruct tx. simpl. now intros ->. Qed.

(** A transaction whose status and hashes are up to date is left alone by
    the three updates. *)
Lemma updateAll_fixed (tx : Tx.t) :
  ((0 < Tx.missingSigCount tx)%N -> Tx.status_ tx = Tx.UNSIGNED) ->
  Tx.unsigned_hash_ tx
    = getHashLittleEndian (Coin.clearScriptSigs (Tx.toCoinClasses tx)) ->
  (Tx.status_neqb (Tx.status_ tx) Tx.UNSIGNED = true ->
   Tx.hash_ tx = rev (sha256_2 (getSerialized (Tx.toCoinClasses tx)))) ->
  Tx.updateAll tx = tx.
Proof.
  intros Hs Hu Hh. unfold Tx.updateAll.
  assert (H1 : Tx.updateStatus tx = tx).
  { unfold Tx.updateStatus.
    destruct (0 <? Tx.missingSigCount tx)%N eqn:Em; [| reflexivity].
    apply set_status_same, Hs, N.ltb_lt, Em. }
  rewrite H1.
  assert (H2 : Tx.updateUnsignedHash tx = tx)
    by (unfold Tx.updateUnsignedHash; apply set_unsigned_hash_same, Hu).
  rewrite H2. unfold Tx.updateHash.
  destruct (Tx.status_neqb (Tx.status_ tx) Tx.UNSIGNED) eqn:En; [| reflexivity].
  apply set_hash_same. unfold Tx.raw. auto.
Qed.

(** X16.  Running the three updates a second time changes nothing. *)
Theorem updateAll_idempotent (tx : Tx.t) :
  Tx.updateAll (Tx.updateAll tx) = Tx.updateAll tx.
Proof.
  destruct (updateAll_spec tx) as (Hs & Hu & Hh).
  apply updateAll_fixed.
  - rewrite (missingSigCount_txins _ tx) by apply updateAll_txins.
    intros Hm. apply N.ltb_lt in Hm. now rewrite Hs, Hm.
  - now rewrite updateAll_toCoinClasses.
  - intros En. rewrite Hh, En, updateAll_toCoinClasses. reflexivity.
Qed.

Lemma fold_max_spec (sn : TxIn.t -> N) (l : list TxIn.t) (acc : N) :
  let r := fold_left (fun count txin =>
                        if (count <? sn txin)%N then sn txin else count)
             l acc in
  (acc <= r)%N /\
  Forall (fun txin => (sn txin <= r)%N) l /\
  (r = acc \/ exists txin, In txin l /\ r = sn txin).
Proof.
  revert acc. induction l as [| x l IH]; intros acc; simpl.
  - split; [lia |]. split; [constructor | now left].
  - destruct (IH (if (acc <? sn x)%N then sn x else acc)) as (H1 & H2 & H3).
    destruct (N.ltb_spec acc (sn x)) as [Hlt | Hge].
    + split; [lia |]. split; [constructor; [lia | exact H2] |].
      right. destruct H3 as [-> | (y & Hy & ->)]; eauto.
    + split; [lia |]. split; [constructor; [lia | exact H2] |].
      destruct H3 as [-> | (y & Hy & ->)]; eauto.
Qed.

(** X17.  [missingSigCount()] is the largest number of signatures any one
    input still needs: no input needs more, and unless the count is 0 some
    input needs exactly that many.  It is 0 exactly when no input needs a
    signature, in particular for a transaction without inputs. *)
Theorem missingSigCount_max (tx : Tx.t) :
  Forall (fun txin =>
            (sigsneeded (Script_parse (TxIn.script_ txin))
             <= Tx.missingSigCount tx)%N) (Tx.txins_ tx) /\
  (Tx.missingSigCount tx = 0%N \/
   exists txin,
     In txin (Tx.txins_ tx) /\
     Tx.missingSigCount tx = sigsneeded (Script_parse (TxIn.script_ txin))) /\
  (Tx.missingSigCount tx = 0%N <->
   Forall (fun txin => sigsneeded (Script_parse (TxIn.script_ txin)) = 0%N)
     (Tx.txins_ tx)).
Proof.
  unfold Tx.missingSigCount.
  destruct (fold_max_spec
              (fun txin => sigsneeded (Script_parse (TxIn.script_ txin)))
              (Tx.txins_ tx) 0%N) as (_ & Hall & Hex).
  cbv zeta in Hall, Hex.
  split; [exact Hall |]. split; [exact Hex |].
  split.
  - intros H0. rewrite H0 in Hall.
    eapply Forall_impl; [| exact Hall]. intros a Ha. simpl in Ha. lia.
  - intros Hz. destruct Hex as [-> | (txin & Hin & ->)]; [reflexivity |].
    rewrite Forall_forall in Hz. now apply Hz.
Qed.
End TxSet.

(** [set] with two different inputs and one output: the inputs carry the
    positions 0 and 1. *)
Lemma set_stores_parts_witness :
  NoDup (map fst (distinct [Demo.txin_signed; Demo.txin_unsigned])) /\
  map TxIn.txindex_
    (Tx.txins_
       (@Tx.set_shared Demo.hash Demo.scriptlib Demo.coindata Demo.tx0 1
          (distinct [Demo.txin_signed; Demo.txin_unsigned])
          (distinct [Demo.txout1]) 0 4294967295 Tx.RECEIVED))
  = [0; 1].
Proof.
  assert (Hd : NoDup (map fst (distinct [Demo.txin_signed; Demo.txin_unsigned]))).
  { repeat constructor; simpl; intuition discriminate. }
  split; [exact Hd |].
  destruct (@set_stores_parts Demo.hash Demo.scriptlib Demo.coindata Demo.tx0 1
              (distinct [Demo.txin_signed; Demo.txin_unsigned])
              (distinct [Demo.txout1]) 0 4294967295 Tx.RECEIVED)
    as (_ & _ & _ & _ & _ & _ & _ & _ & Hins & _).
  exact (Hins Hd).
Defined.

(** [set] with one input listed first and last, another in between: the
    three entries keep their order and scripts, and the input listed twice
    reads position 2 in both places. *)
Lemma set_aliased_positions :
  map TxIn.script_ (Tx.txins_ DemoMore.set_aliased)
    = map TxIn.script_ (map snd DemoMore.txins_aliased) /\
  map TxIn.txindex_ (Tx.txins_ DemoMore.set_aliased) = [2; 1; 2].
Proof. split; reflexivity. Qed.

(** ** Transactions: the unsigned hash during signing *)

Section SigningSteps.
Context {hashlib : Hash} {scriptlib : ScriptLib} {coindata : CoinData}.

(** No signing step changes the transaction with its input scripts
    cleared. *)
Lemma sign_step_cleared (tx : Tx.t) (step : SignStep) :
  Coin.clearScriptSigs (Tx.toCoinClasses (sign_step tx step))
  = Coin.clearScriptSigs (Tx.toCoinClasses tx).
Proof.
  destruct step as [new_script | status | | |]; simpl.
  - apply clearScriptSigs_replace_scripts.
  - unfold Tx.status. destruct (Tx.status_neqb _ _); reflexivity.
  - unfold Tx.updateStatus. destruct (0 <? _)%N; reflexivity.
  - reflexivity.
  - unfold Tx.updateHash. destruct (Tx.status_neqb _ _); reflexivity.
Qed.

(** A signing step stores no unsigned hash but that of the transaction with
    its input scripts cleared. *)
Lemma sign_step_unsigned_hash (tx : Tx.t) (step : SignStep) :
  Tx.unsigned_hash_ tx
    = getHashLittleEndian (Coin.clearScriptSigs (Tx.toCoinClasses tx)) ->
  Tx.unsigned_hash_ (sign_step tx step) = Tx.unsigned_hash_ tx.
Proof.
  intros Hu. destruct step as [new_script | status | | |]; simpl.
  - reflexivity.
  - unfold Tx.status. destruct (Tx.status_neqb _ _); reflexivity.
  - unfold Tx.updateStatus. destruct (0 <? _)%N; reflexivity.
  - now rewrite Hu.
  - unfold Tx.updateHash. destruct (Tx.status_neqb _ _); reflexivity.
Qed.

(** Signing steps keep an unsigned hash that is up to date. *)
Lemma sign_steps_unsigned_hash (steps : list SignStep) (tx : Tx.t) :
  Tx.unsigned_hash_ tx
    = getHashLittleEndian (Coin.clearScriptSigs (Tx.toCoinClasses tx)) ->
  Tx.unsigned_hash_ (sign_steps tx steps) = Tx.unsigned_hash_ tx.
Proof.
  unfold sign_steps. revert tx.
  induction steps as [| step steps IH]; intros tx Ht; simpl; [reflexivity |].
  rewrite IH.
  - now apply sign_step_unsigned_hash.
  - rewrite sign_step_cleared, sign_step_unsigned_hash; assumption.
Qed.

Lemma unsigned_hash_stable_after_update (tx : Tx.t) (steps : list SignStep) :
  Tx.unsigned_hash_ (sign_steps (Tx.updateUnsignedHash tx) steps)
  = Tx.unsigned_hash_ (Tx.updateUnsignedHash tx).
Proof. apply sign_steps_unsigned_hash. reflexivity. Qed.

(** X18.  After [set(version, txins, txouts, ...)], any sequence of signing
    steps (replacing the scripts of inputs, setting the status,
    [updateStatus()], [updateUnsignedHash()], [updateHash()]) leaves the
    stored unsigned hash what [set] made it: the hash of the
    [Coin::Transaction] of the arguments with the input scripts cleared. *)
Theorem unsigned_hash_stable (tx : Tx.t) (version : Z)
    (txins : list TxIn.t) (txouts : list TxOut.t) (locktime timestamp : Z)
    (status : Tx.status_t) (steps : list SignStep) :
  Tx.unsigned_hash_
    (sign_steps (Tx.set tx version txins txouts locktime timestamp status)
       steps)
  = getHashLittleEndian
      (Coin.clearScriptSigs (coin_of_parts version txins txouts locktime)).
Proof.
  pose proof (set_toCoinClasses tx version txins txouts locktime timestamp
                status) as Hc.
  assert (Hu : Tx.unsigned_hash_
                 (Tx.set tx version txins txouts locktime timestamp status)
               = getHashLittleEndian
                   (Coin.clearScriptSigs
                      (Tx.toCoinClasses
                         (Tx.set tx version txins txouts locktime timestamp
                            status)))).
  { rewrite Hc. unfold Tx.set, Tx.set_shared in *.
    rewrite updateAll_toCoinClasses in Hc.
    match goal with
    | |- context [Tx.updateAll ?t] =>
        rewrite (proj1 (proj2 (updateAll_spec t))), Hc
    end.
    reflexivity. }
  rewrite (sign_steps_unsigned_hash steps _ Hu), Hu, Hc. reflexivity.
Qed.
End SigningSteps.

(** ** Keychain: locking without a stored ciphertext *)

(** X20.  Locking is only undone from the stored ciphertext.  When no
    private-key ciphertext is stored, [lockPrivateKey()] leaves a keychain
    that counts as public: [isPrivateKeyLocked()] and [unlockPrivateKey]
    throw.  When one is stored, the keychain stays private, reads as locked,
    and [unlockPrivateKey] puts the stored bytes back.  Likewise
    [unlockChainCode] after [lockChainCode()] puts the stored chain-code
    bytes back, which are empty when none were stored. *)
Theorem lock_needs_ciphertext (k : Keychain.t) (key : secure_bytes_t) :
  (Keychain.privkey_ciphertext_ k = [] ->
   Keychain.isPrivate (Keychain.lockPrivateKey k) = false /\
   Keychain.isPrivateKeyLocked (Keychain.lockPrivateKey k)
     = Throw "Keychain is not private." /\
   Keychain.unlockPrivateKey (Keychain.lockPrivateKey k) key
     = Throw "Cannot unlock the private key of a public keychain.") /\
  (Keychain.privkey_ciphertext_ k <> [] ->
   Keychain.isPrivate (Keychain.lockPrivateKey k) = true /\
   Keychain.isPrivateKeyLocked (Keychain.lockPrivateKey k) = Ok true /\
   rmap Keychain.privkey_
     (Keychain.unlockPrivateKey (Keychain.lockPrivateKey k) key)
     = Ok (Keychain.privkey_ciphertext_ k)) /\
  Keychain.chain_code_
    (Keychain.unlockChainCode (Keychain.lockChainCode k) key)
    = Keychain.chain_code_ciphertext_ k.
Proof.
  unfold Keychain.isPrivateKeyLocked, Keychain.unlockPrivateKey,
    Keychain.unlockChainCode, Keychain.isPrivate.
  destruct k as [n d pf cn pk c ccs csalt p pcs psalt par path h]. simpl.
  split; [| split].
  - intros ->. auto.
  - intros Hp. destruct pcs; [congruence |]. auto.
  - reflexivity.
Qed.

(** A child fresh from [child] has no ciphertext stored. *)
Lemma lock_needs_ciphertext_witness :
  Keychain.privkey_ciphertext_ (Demo.get Demo.child1) = [] /\
  Keychain.isPrivate (Keychain.lockPrivateKey (Demo.get Demo.child1)) = false.
Proof.
  split; [reflexivity |].
  exact (proj1 (proj1 (lock_needs_ciphertext (Demo.get Demo.child1) [])
                  eq_refl)).
Defined.

(** ** Key: the private key *)

Section KeyPrivkey.
Context {hdkeys : HDKeys}.

(** X21.  [Key::privkey()] succeeds exactly when the key was built as
    private and the root keychain has its private key and its chain code in
    memory at the time of the call; it then returns the root's signing
    private key for the key's index and derivation path.  After [lockAll()]
    on the root it throws. *)
Theorem Key_privkey_spec (key : Key.t) (root_keychain : Keychain.t) :
  is_ok (Key_privkey key root_keychain)
    = Key.is_private_ key
      && negb (empty (Keychain.privkey_ root_keychain))
      && negb (empty (Keychain.chain_code_ root_keychain)) /\
  (forall privkey,
     Key_privkey key root_keychain = Ok privkey ->
     Keychain.getSigningPrivateKey root_keychain (Key.index_ key)
       (Key.derivation_path_ key) = Ok privkey) /\
  is_ok (Key_privkey key (Keychain.lockAll root_keychain)) = false.
Proof.
  unfold Key_privkey, Keychain.isPrivateKeyLocked, Keychain.isChainCodeLocked,
    Keychain.getSigningPrivateKey, Keychain.isPrivate.
  destruct (Key.is_private_ key); simpl; [| repeat split; discriminate].
  destruct (Keychain.privkey_ root_keychain),
    (Keychain.privkey_ciphertext_ root_keychain),
    (Keychain.chain_code_ root_keychain); simpl;
    repeat split; try discriminate; auto.
Qed.
End KeyPrivkey.

(** The private key of key number 5 of a sample root, which is unlocked. *)
Lemma Key_privkey_spec_witness :
  @Key_privkey Demo.hdkeys DemoMore.key5 (Demo.get Demo.root1)
    = Ok DemoMore.privkey5 /\
  @Keychain.getSigningPrivateKey Demo.hdkeys (Demo.get Demo.root1)
    (Key.index_ DemoMore.key5) (Key.derivation_path_ DemoMore.key5)
    = Ok DemoMore.privkey5.
Proof.
  assert (Hk : @Key_privkey Demo.hdkeys DemoMore.key5 (Demo.get Demo.root1)
               = Ok DemoMore.privkey5) by reflexivity.
  split; [exact Hk |].
  exact (proj1 (proj2 (@Key_privkey_spec Demo.hdkeys DemoMore.key5
                         (Demo.get Demo.root1))) _ Hk).
Defined.
